(** * The Afters: scout engine

    A shallow embedding of the scout engine (location scraper, vibe
    analyzer, aggregator, pipeline and command line) and the properties
    its specification states about it, followed by further properties of
    the code: the shortcode pattern, the extraction, the retry loop, the
    replies of the endpoint, the summaries, the reports and the options.

    Conventions of the embedding.
    - Python exceptions are values: a computation that may raise returns a
      [result], and [try]/[except] is a match on the exception class.  The
      exceptions of the model are the subclasses of [Exception]; the
      message of an exception raised by a builtin is indicative, only its
      class decides the control flow.
    - What the code obtains from outside (the HTTP client, the vision
      endpoint, the browser, [json.loads], [int(str)], [float(str)]) is a
      parameter of the model: theorems hold for every behaviour of these
      collaborators.
    - A Python [float] is a binary64 value, [spec_float] with precision 53
      and maximal exponent 1024.  The one place where the code divides,
      [sum(...) / len(...)], is modelled by the exact quotient in [Q]; the
      comment at [Scout.mean] says why the comparisons agree.
    - A Python [str] is a [string]; the string operations of the code
      ([strip], [startswith], [split], slices, the regular expression) are
      modelled on its characters as ASCII.
    - Timestamps ([datetime.utcnow()]), console output and the jitter
      before a navigation are left out; the scraper keeps an event log of
      the launches, the closes and the back-off sleeps, and a run of the
      command line is modelled by the way it ends. *)

From Stdlib Require Import ZArith QArith Lqa String Ascii List Bool Lia.
From Stdlib Require Import Permutation SpecFloat.
From stdpp Require Import base list sorting gmap strings pretty.

#[local] Set Warnings "-clear-no-such-hyp".
Import ListNotations.

Local Open Scope string_scope.
Local Open Scope Z_scope.

(** ** Python values and builtins *)

Module Py.

(** The exception classes the handlers of the code tell apart.
    [JSONDecodeError] is a subclass of [ValueError] but not conversely, so
    the two are distinct classes here; [HTTPError] is [httpx.HTTPError]
    with its subclasses; [OtherError] is any other subclass of
    [Exception]. *)
Inductive exn_class :=
| HTTPError
| JSONDecodeError
| KeyError
| TypeError
| ValueError
| AttributeError
| OverflowError
| IndexError
| OtherError.

#[global] Instance exn_class_eq_dec : EqDecision exn_class.
Proof. solve_decision. Defined.

(** An exception: its class and [str(e)]. *)
Record exn := Exn { exn_cls : exn_class; exn_msg : string }.

Inductive result (A : Type) :=
| Ok (a : A)
| Raise (e : exn).
Arguments Ok {A} a.
Arguments Raise {A} e.

#[global] Instance result_ret : MRet result := fun A a => Ok a.
#[global] Instance result_bind : MBind result := fun A B f m =>
  match m with
  | Ok a => f a
  | Raise e => Raise e
  end.

(** [for x in xs: acc = body(acc, x)], stopping at the first exception. *)
Fixpoint foldM {A B : Type} (body : B -> A -> result B) (xs : list A) (acc : B)
  : result B :=
  match xs with
  | [] => Ok acc
  | x :: xs' => acc' ← body acc x; foldM body xs' acc'
  end.

(** Binary64. *)
Definition prec : Z := 53.
Definition emax : Z := 1024.
Abbreviation float := spec_float.

Definition float_of_Z (z : Z) : float := binary_normalize prec emax z 0 false.
Definition flt (x y : float) : bool := SFltb x y.
Definition fle (x y : float) : bool := SFleb x y.

(** The literals of the source. *)
Definition f0_0 : float := S754_zero false.
Definition f1_0 : float := Eval vm_compute in float_of_Z 1.
Definition f0_5 : float :=
  Eval vm_compute in SFdiv prec emax (float_of_Z 1) (float_of_Z 2).
Definition f0_3 : float :=
  Eval vm_compute in SFdiv prec emax (float_of_Z 3) (float_of_Z 10).

(** [a / b] on two integers of magnitude below [2^53] (they convert to
    binary64 without rounding): the quotient, rounded to nearest. *)
Definition true_div (a b : Z) : float :=
  SFdiv prec emax (float_of_Z a) (float_of_Z b).

(** The rational a finite float stands for. *)
Definition float_value (f : float) : Q :=
  match f with
  | S754_finite s m e =>
      let z := if s then Z.neg m else Z.pos m in
      if 0 <=? e then inject_Z (z * 2 ^ e) else z # Z.to_pos (2 ^ (- e))
  | _ => 0
  end.

(** The values [json.loads] produces.  A [dict] is the list of its items
    (keys distinct, in insertion order). *)
#[local] Set Warnings "-register-all".
Inductive json :=
| JNull
| JBool (b : bool)
| JInt (z : Z)
| JFloat (f : float)
| JStr (s : string)
| JArr (l : list json)
| JObj (m : list (string * json)).

Fixpoint assoc (k : string) (m : list (string * json)) : option json :=
  match m with
  | [] => None
  | (k', v) :: m' => if String.eqb k' k then Some v else assoc k m'
  end.

(** [data.get(key, default)]: only a [dict] has the method. *)
Definition get (data : json) (key : string) (default : json) : result json :=
  match data with
  | JObj m => Ok (match assoc key m with Some v => v | None => default end)
  | _ => Raise (Exn AttributeError "object has no attribute 'get'")
  end.

(** *** Numeric conversions *)

(** The integer a finite float truncates to ([int(x)] rounds toward zero). *)
Definition trunc (s : bool) (m : positive) (e : Z) : Z :=
  let a := if 0 <=? e then Z.pos m * 2 ^ e else Z.pos m / 2 ^ (- e) in
  if s then - a else a.

(** The builtins that read a number out of a string; [None] is the
    [ValueError] they raise on a string that holds no number. *)
Record str_parsers := {
  int_of_str : string -> option Z;
  float_of_str : string -> option float
}.

Section Conversions.
Context (P : str_parsers).

(** [int(v)] *)
Definition int (v : json) : result Z :=
  match v with
  | JInt z => Ok z
  | JBool b => Ok (if b then 1 else 0)
  | JFloat (S754_zero _) => Ok 0
  | JFloat (S754_finite s m e) => Ok (trunc s m e)
  | JFloat (S754_infinity _) =>
      Raise (Exn OverflowError "cannot convert float infinity to integer")
  | JFloat S754_nan =>
      Raise (Exn ValueError "cannot convert float NaN to integer")
  | JStr s =>
      match int_of_str P s with
      | Some z => Ok z
      | None => Raise (Exn ValueError ("invalid literal for int() with base 10: " ++ s))
      end
  | JNull | JArr _ | JObj _ =>
      Raise (Exn TypeError "int() argument must be a string, a bytes-like object or a real number")
  end.

(** [float(v)] *)
Definition float_ (v : json) : result float :=
  match v with
  | JFloat f => Ok f
  | JInt z =>
      match float_of_Z z with
      | S754_infinity _ => Raise (Exn OverflowError "int too large to convert to float")
      | f => Ok f
      end
  | JBool b => Ok (if b then f1_0 else f0_0)
  | JStr s =>
      match float_of_str P s with
      | Some f => Ok f
      | None => Raise (Exn ValueError ("could not convert string to float: " ++ s))
      end
  | JNull | JArr _ | JObj _ =>
      Raise (Exn TypeError "float() argument must be a string or a real number")
  end.

End Conversions.

(** [max(1, min(10, n))] on integers. *)
Definition clamp_level (n : Z) : Z := Z.max 1 (Z.min 10 n).

(** [min(a, b)] and [max(a, b)] on floats: Python keeps the first argument
    unless the second compares strictly smaller (larger); a NaN never
    does. *)
Definition fmin (a b : float) : float := if flt b a then b else a.
Definition fmax (a b : float) : float := if flt a b then b else a.

(** [max(0.0, min(1.0, x))] *)
Definition clamp_unit (x : float) : float := fmax f0_0 (fmin f1_0 x).

(** *** Sequences *)

(** [v[:4]].  Slicing a [dict] fails with [TypeError] (with [KeyError]
    from Python 3.12 on); both classes are handled alike by the caller. *)
Definition slice4 (v : json) : result json :=
  match v with
  | JArr l => Ok (JArr (take 4 l))
  | JStr s => Ok (JStr (substring 0 4 s))
  | JObj _ => Raise (Exn TypeError "unhashable type: 'slice'")
  | JNull | JBool _ | JInt _ | JFloat _ =>
      Raise (Exn TypeError "object is not subscriptable")
  end.

(** [len(v)], where defined. *)
Definition len (v : json) : option nat :=
  match v with
  | JArr l => Some (length l)
  | JStr s => Some (String.length s)
  | JObj m => Some (length m)
  | _ => None
  end.

(** [for x in v]: the elements of a list, the characters of a string, the
    keys of a dict. *)
Definition iter (v : json) : result (list json) :=
  match v with
  | JArr l => Ok l
  | JStr s => Ok (map (fun c => JStr (String c "")) (list_ascii_of_string s))
  | JObj m => Ok (map (fun kv => JStr (fst kv)) m)
  | JNull | JBool _ | JInt _ | JFloat _ =>
      Raise (Exn TypeError "object is not iterable")
  end.

(** *** Dictionary keys

    A key must be hashable, and two keys are the same entry when they are
    equal: numbers compare by value across [bool], [int] and [float]
    ([True == 1 == 1.0]).  All NaN values [json.loads] returns are one
    object, so they are one key. *)
Definition hashable (v : json) : bool :=
  match v with
  | JArr _ | JObj _ => false
  | _ => true
  end.

(** The integer a float equals, when it equals one. *)
Definition integral (f : float) : option Z :=
  match f with
  | S754_zero _ => Some 0
  | S754_finite s m e =>
      if 0 <=? e then Some (trunc s m e)
      else if Z.pos m mod 2 ^ (- e) =? 0 then Some (trunc s m e) else None
  | _ => None
  end.

Definition float_bits_eqb (f g : float) : bool :=
  match f, g with
  | S754_nan, S754_nan => true
  | S754_infinity s, S754_infinity t => Bool.eqb s t
  | S754_zero _, S754_zero _ => true
  | S754_finite s m e, S754_finite t n d =>
      Bool.eqb s t && Pos.eqb m n && Z.eqb e d
  | _, _ => false
  end.

Definition number (v : json) : option (Z + float) :=
  match v with
  | JBool b => Some (inl (if b then 1 else 0))
  | JInt z => Some (inl z)
  | JFloat f => Some (match integral f with Some z => inl z | None => inr f end)
  | _ => None
  end.

Definition key_eqb (a b : json) : bool :=
  match a, b with
  | JNull, JNull => true
  | JStr s, JStr t => String.eqb s t
  | _, _ =>
      match number a, number b with
      | Some (inl x), Some (inl y) => Z.eqb x y
      | Some (inr f), Some (inr g) => float_bits_eqb f g
      | _, _ => false
      end
  end.

(** [', '.join(xs)]: every element must be a string. *)
Fixpoint join (sep : string) (xs : list json) : result string :=
  match xs with
  | [] => Ok ""
  | JStr s :: xs' =>
      match xs' with
      | [] => Ok s
      | _ => rest ← join sep xs'; Ok (s ++ sep ++ rest)
      end
  | _ :: _ => Raise (Exn TypeError "sequence item: expected str instance")
  end.

(** *** Strings *)

(** [s] between double quotes. *)
Definition quoted (s : string) : string :=
  String (ascii_of_nat 34) s ++ String (ascii_of_nat 34) EmptyString.

(** The ASCII characters [str.strip()] removes. *)
Definition is_space (c : ascii) : bool :=
  let n := nat_of_ascii c in
  ((9 <=? n) && (n <=? 13) || (28 <=? n) && (n <=? 32))%nat.

Fixpoint lstrip (s : string) : string :=
  match s with
  | String c s' => if is_space c then lstrip s' else s
  | EmptyString => EmptyString
  end.

Fixpoint rstrip (s : string) : string :=
  match s with
  | String c s' =>
      match rstrip s' with
      | EmptyString => if is_space c then EmptyString else String c EmptyString
      | r => String c r
      end
  | EmptyString => EmptyString
  end.

Definition strip (s : string) : string := rstrip (lstrip s).

Definition startswith (p s : string) : bool := String.prefix p s.

(** [s[n:]] *)
Fixpoint drop_str (n : nat) (s : string) : string :=
  match n, s with
  | S n', String _ s' => drop_str n' s'
  | _, _ => s
  end.

(** The part of [s] before the first occurrence of [sep], all of [s] when
    there is none: [s.split(sep)[0]]. *)
Fixpoint before (sep s : string) : string :=
  match s with
  | String c s' => if startswith sep s then EmptyString else String c (before sep s')
  | EmptyString => EmptyString
  end.

(** [sub in s] *)
Fixpoint contains (sub s : string) : bool :=
  startswith sub s ||
  match s with
  | String _ s' => contains sub s'
  | EmptyString => false
  end.

End Py.

(** ** Vibe analyzer ([analyzers/vibe_analyzer.py]) *)

Module Analyzer.
Import Py.

(** [class VibeAnalysis].  [vibe_tags] and [description] hold whatever
    JSON value the reply carried: the constructor does not check the
    annotated types [list[str]] and [str]. *)
Record VibeAnalysis := {
  image_url : string;
  energy_level : Z;
  crowd_level : Z;
  vibe_tags : json;
  description : json;
  confidence : float;
  success : bool;
  error : option string
}.

(** What [client.get] returns. *)
Record http_response := {
  raise_for_status : result unit;
  content_type : option string;     (* the content-type header, if sent *)
  content_b64 : string              (* base64 of the body *)
}.

(** The collaborators of the analyzer. *)
Record world := {
  parsers : str_parsers;
  json_loads : string -> result json;
  http_get : string -> result http_response;
  (* [client.messages.create] on a media type and image data: the content
     blocks of the message, each with its [text] when it has one *)
  messages_create : string -> string -> result (list (option string))
}.

(** The record every failure path returns. *)
Definition degraded (url descr err : string) : VibeAnalysis :=
  {| image_url := url;
     energy_level := 5;
     crowd_level := 5;
     vibe_tags := JArr [JStr "Unknown"];
     description := JStr descr;
     confidence := f0_0;
     success := false;
     error := Some err |}.

(** [except (A, B, ...) as e]: does the clause catch [e]? *)
Definition catches (classes : list exn_class) (e : exn) : bool :=
  bool_decide (exn_cls e ∈ classes).

(** Every class of the model derives from [Exception]. *)
Definition Exception : list exn_class :=
  [HTTPError; JSONDecodeError; KeyError; TypeError; ValueError;
   AttributeError; OverflowError; IndexError; OtherError].

Section WithWorld.
Context (w : world).

Definition media_type_of (ct : string) : string :=
  if contains "jpeg" ct || contains "jpg" ct then "image/jpeg"
  else if contains "png" ct then "image/png"
  else if contains "gif" ct then "image/gif"
  else if contains "webp" ct then "image/webp"
  else "image/jpeg".

Definition _fetch_image_as_base64 (url : string) : result (string * string) :=
  response ← http_get w url;
  _ ← raise_for_status response;
  let ct := default "image/jpeg" (content_type response) in
  Ok (content_b64 response, media_type_of ct).

(** The clean-up of the reply before [json.loads]. *)
Definition unfence (response_text : string) : string :=
  let text := strip response_text in
  let text :=
    if startswith "```" text then
      let text := before "```" (drop_str 3 text) in   (* text.split("```")[1] *)
      if startswith "json" text then drop_str 4 text else text
    else text in
  strip text.

(** The body of the [try] in [_parse_response]; the keyword arguments are
    evaluated in the order they are written. *)
Definition parse_body (response_text url : string) : result VibeAnalysis :=
  data ← json_loads w (unfence response_text);
  energy ← get data "energy_level" (JInt 5) ≫= int (parsers w);
  crowd ← get data "crowd_level" (JInt 5) ≫= int (parsers w);
  tags ← get data "vibe_tags" (JArr []) ≫= slice4;
  descr ← get data "description" (JStr "Unable to analyze");
  conf ← get data "confidence" (JFloat f0_5) ≫= float_ (parsers w);
  Ok {| image_url := url;
        energy_level := clamp_level energy;
        crowd_level := clamp_level crowd;
        vibe_tags := tags;
        description := descr;
        confidence := clamp_unit conf;
        success := true;
        error := None |}.

Definition _parse_response (response_text url : string) : result VibeAnalysis :=
  match parse_body response_text url with
  | Ok a => Ok a
  | Raise e =>
      if catches [JSONDecodeError; KeyError; TypeError] e
      then Ok (degraded url "Failed to parse analysis" ("Parse error: " ++ exn_msg e))
      else Raise e
  end.

(** [message.content[0].text] *)
Definition first_text (content : list (option string)) : result string :=
  match content with
  | [] => Raise (Exn IndexError "list index out of range")
  | Some t :: _ => Ok t
  | None :: _ => Raise (Exn AttributeError "object has no attribute 'text'")
  end.

(** The body of the [try] in [analyze_image]: the text of the reply, then
    its parsing. *)
Definition reply_text (url : string) : result string :=
  '(base64_data, media_type) ← _fetch_image_as_base64 url;
  content ← messages_create w media_type base64_data;
  first_text content.

Definition analyze_body (url : string) : result VibeAnalysis :=
  response_text ← reply_text url;
  _parse_response response_text url.

Definition analyze_image (url : string) : result VibeAnalysis :=
  match analyze_body url with
  | Ok a => Ok a
  | Raise e =>
      if catches [HTTPError] e
      then Ok (degraded url "Failed to fetch image" ("HTTP error: " ++ exn_msg e))
      else if catches Exception e
      then Ok (degraded url "Analysis failed" (exn_msg e))
      else Raise e
  end.

(** [asyncio.gather] returns the results in the order of the tasks, and
    raises if a task raises.  The admission gate and the pacing delay only
    affect timing. *)
Fixpoint analyze_batch (image_urls : list string) : result (list VibeAnalysis) :=
  match image_urls with
  | [] => Ok []
  | url :: urls =>
      a ← analyze_image url;
      rest ← analyze_batch urls;
      Ok (a :: rest)
  end.

End WithWorld.

(** *** Ranges of a score *)

Definition in_ranges (a : VibeAnalysis) : Prop :=
  1 <= energy_level a <= 10 /\
  1 <= crowd_level a <= 10 /\
  fle f0_0 (confidence a) = true /\
  fle (confidence a) f1_0 = true /\
  exists n, len (vibe_tags a) = Some n /\ (n <= 4)%nat.

(** The record a reply that is an empty JSON object is parsed to: every
    field takes the default of its [data.get]. *)
Definition defaults (url : string) : VibeAnalysis :=
  {| image_url := url;
     energy_level := 5;
     crowd_level := 5;
     vibe_tags := JArr [];
     description := JStr "Unable to analyze";
     confidence := f0_5;
     success := true;
     error := None |}.

(** The values [int()] and [float()] reject for their type. *)
Definition not_a_number (v : json) : bool :=
  match v with
  | JNull | JArr _ | JObj _ => true
  | _ => false
  end.

(** *** Collaborators for the examples *)

Definition no_parsers : str_parsers :=
  {| int_of_str := fun _ => None; float_of_str := fun _ => None |}.

Definition jpeg : http_response :=
  {| raise_for_status := Ok (); content_type := Some "image/jpeg"; content_b64 := "" |}.

(** The image is fetched, the endpoint answers [reply] in one text block
    and [json.loads] decodes it as [decoded]. *)
Definition replying (reply : string) (decoded : result json) : world :=
  {| parsers := no_parsers;
     json_loads := fun _ => decoded;
     http_get := fun _ => Ok jpeg;
     messages_create := fun _ _ => Ok [Some reply] |}.

(** Fetching the image raises [e]. *)
Definition unreachable (e : exn) : world :=
  {| parsers := no_parsers;
     json_loads := fun _ => Raise (Exn JSONDecodeError "Expecting value");
     http_get := fun _ => Raise e;
     messages_create := fun _ _ => Ok [] |}.

(** The reply [{"energy_level": null}] and its decoding. *)
Definition null_energy_reply : string :=
  "{" ++ quoted "energy_level" ++ ": null}".

Definition null_energy_world : world :=
  replying null_energy_reply (Ok (JObj [("energy_level", JNull)])).

End Analyzer.

(** ** Location scraper ([scrapers/instagram_scraper.py]) *)

Module Scraper.
Import Py.

(** [class MediaItem] *)
Record MediaItem := {
  url : string;
  thumbnail_url : string;
  media_type : string;        (* "image" or "video" *)
  shortcode : string
}.

(** [class ScrapeResult] *)
Record ScrapeResult := {
  location_url : string;
  location_name : option string;
  media_items : list MediaItem;
  success : bool;
  error : option string
}.

(** *** The page, as the browser shows it *)

(** One [a[href*="/p/"]] element: what each query on it answers. *)
Record link := {
  href : result (option string);               (* get_attribute("href") *)
  (* query_selector("img") and, on the image, get_attribute("src") *)
  img_src : result (option (option string));
  (* query_selector for the video or reel icon finds an element *)
  video_indicator : result bool
}.

Record page := {
  (* query_selector('input[name="username"]') finds an element *)
  login_wall : result bool;
  (* the text of the first h1, if there is one *)
  heading : result (option string);
  (* the post links at the first extraction *)
  post_links : result (list link);
  (* the post links after the scroll to the bottom (or the exception the
     scroll, the wait or the query raises) *)
  post_links_scrolled : result (list link)
}.

(** What one attempt meets. *)
Inductive attempt_env :=
(* [_setup_browser] raises: [browser] and [playwright] are not rebound *)
| LaunchFails (e : exn)
(* the browser is up; creating the context and the page and navigating
   raise, or [goto] returns (no response, or one with a status) *)
| Launched (nav : result (option Z * page)).

(** *** Media extraction *)

(** The character class [[A-Za-z0-9_-]]. *)
Definition is_shortcode_char (c : ascii) : bool :=
  let n := nat_of_ascii c in
  ((65 <=? n) && (n <=? 90) || (97 <=? n) && (n <=? 122)
   || (48 <=? n) && (n <=? 57) || (n =? 95) || (n =? 45))%nat.

Fixpoint take_while (p : ascii -> bool) (s : string) : string :=
  match s with
  | String c s' => if p c then String c (take_while p s') else EmptyString
  | EmptyString => EmptyString
  end.

(** [re.search(r'/p/([A-Za-z0-9_-]+)', href)], the group of the leftmost
    match. *)
Fixpoint search_shortcode (href : string) : option string :=
  match href with
  | String _ rest =>
      if startswith "/p/" href then
        match take_while is_shortcode_char (drop_str 3 href) with
        | EmptyString => search_shortcode rest
        | code => Some code
        end
      else search_shortcode rest
  | EmptyString => None
  end.

(** [xs[:k]], also for a negative [k]. *)
Definition slice_to {A : Type} (k : Z) (xs : list A) : list A :=
  if 0 <=? k then take (Z.to_nat k) xs
  else take (length xs - Z.to_nat (- k)) xs.

(** One turn of the loop body after the [break] test: the new set of seen
    shortcodes and the item appended, if any.  An exception raised by a
    query is caught by the [except] of the body, which goes on to the next
    link. *)
Definition examine (l : link) (seen : gset string)
  : gset string * option MediaItem :=
  match href l with
  | Raise _ | Ok None | Ok (Some EmptyString) => (seen, None)
  | Ok (Some h) =>
      match search_shortcode h with
      | None => (seen, None)
      | Some code =>
          if bool_decide (code ∈ seen) then (seen, None)
          else
            let seen := {[code]} ∪ seen in
            match img_src l, video_indicator l with
            | Ok img, Ok video =>
                (seen,
                 Some {| url := "https://www.instagram.com/p/" ++ code ++ "/";
                         thumbnail_url :=
                           match img with
                           | Some (Some src) => src
                           | _ => ""
                           end;
                         media_type := if video then "video" else "image";
                         shortcode := code |})
            | _, _ => (seen, None)
            end
      end
  end.

Fixpoint extract_loop (max_items : Z) (links : list link)
    (seen : gset string) (media_items : list MediaItem) : list MediaItem :=
  match links with
  | [] => media_items
  | l :: rest =>
      if max_items <=? Z.of_nat (length media_items) then media_items
      else
        let '(seen, item) := examine l seen in
        extract_loop max_items rest seen (media_items ++ option_list item)
  end.

Definition _extract_media_from_page (post_links : result (list link))
    (max_items : Z) : result (list MediaItem) :=
  links ← post_links;
  Ok (extract_loop max_items (slice_to (max_items * 2) links) ∅ []).

Definition _get_location_name (p : page) : option string :=
  match heading p with
  | Ok (Some text) => Some text
  | _ => None
  end.

(** *** The retry loop and the browser sessions *)

Inductive event :=
| Launch (session : nat)
| Close (session : nat)
| Sleep (seconds : Z).

Record state := {
  browser : option nat;      (* the local [browser]: the session last launched *)
  launched : nat;            (* how many sessions were launched so far *)
  open_sessions : list nat;  (* launched and not closed *)
  log : list event
}.

Definition initial : state :=
  {| browser := None; launched := 0; open_sessions := []; log := [] |}.

Definition launch (st : state) : state :=
  {| browser := Some (launched st);
     launched := S (launched st);
     open_sessions := open_sessions st ++ [launched st];
     log := log st ++ [Launch (launched st)] |}.

(** [browser.close()] and [playwright.stop()] of a session; both are taken
    not to raise, and to do nothing on a session already closed. *)
Definition close (session : nat) (st : state) : state :=
  {| browser := browser st;
     launched := launched st;
     open_sessions := List.filter (fun s => negb (Nat.eqb s session)) (open_sessions st);
     log := log st ++ [Close session] |}.

Definition sleep (seconds : Z) (st : state) : state :=
  {| browser := browser st;
     launched := launched st;
     open_sessions := open_sessions st;
     log := log st ++ [Sleep seconds] |}.

(** How an iteration of the [for] loop ends. *)
Inductive control :=
| Return (r : ScrapeResult)
| Continue.

Definition failure (location_url err : string) : ScrapeResult :=
  {| location_url := location_url;
     location_name := None;
     media_items := [];
     success := false;
     error := Some err |}.

Section WithConfig.
Context (max_retries : Z).     (* MAX_RETRIES, 3 when unset *)
Context (env : Z -> attempt_env).

(** The part of the [try] body after the rate-limit test. *)
Definition read_page (response : option Z) (p : page) (max_items : Z)
  : result (option string * list MediaItem) :=
  _ ← match response with
      | Some status =>
          if status =? 200 then Ok ()
          else Raise (Exn OtherError ("HTTP " ++ pretty status))
      | None => Ok ()
      end;
  wall ← login_wall p;
  _ ← (if wall : bool
       then Raise (Exn OtherError "Login required - Instagram blocking anonymous scraping")
       else Ok ());
  let location_name := _get_location_name p in
  media_items ← _extract_media_from_page (post_links p) max_items;
  media_items ← match media_items with
                | [] => _extract_media_from_page (post_links_scrolled p) max_items
                | _ => Ok media_items
                end;
  Ok (location_name, media_items).

(** The [except Exception] clause of the loop body. *)
Definition on_exception (location_url : string) (attempt : Z) (e : exn)
    (st : state) : control * state :=
  let st := match browser st with
            | Some b => close b st
            | None => st
            end in
  if attempt =? max_retries - 1
  then (Return (failure location_url (exn_msg e)), st)
  else (Continue, sleep (5 * (attempt + 1)) st).

(** One iteration of [for attempt in range(self.max_retries)]. *)
Definition one_attempt (location_url : string) (max_items : Z) (attempt : Z)
    (st : state) : control * state :=
  match env attempt with
  | LaunchFails e => on_exception location_url attempt e st
  | Launched nav =>
      let st := launch st in
      match nav with
      | Raise e => on_exception location_url attempt e st
      | Ok (response, p) =>
          if bool_decide (response = Some 429)
          then (Continue, sleep (30 * (attempt + 1)) st)
          else
            match read_page response p max_items with
            | Raise e => on_exception location_url attempt e st
            | Ok (location_name, media_items) =>
                let st := match browser st with
                          | Some b => close b st
                          | None => st
                          end in
                (Return {| location_url := location_url;
                           location_name := location_name;
                           media_items := media_items;
                           success := true;
                           error := None |}, st)
            end
      end
  end.

(** The loop, [remaining] iterations to go from index [attempt]. *)
Fixpoint attempts (location_url : string) (max_items : Z) (remaining : nat)
    (attempt : Z) (st : state) : ScrapeResult * state :=
  match remaining with
  | O => (failure location_url "Max retries exceeded", st)
  | S remaining =>
      match one_attempt location_url max_items attempt st with
      | (Return r, st) => (r, st)
      | (Continue, st) => attempts location_url max_items remaining (attempt + 1) st
      end
  end.

(** The result and the state of the sessions when the function returns. *)
Definition scrape_location (location_url : string) (max_items : Z)
  : ScrapeResult * state :=
  attempts location_url max_items (Z.to_nat max_retries) 0 initial.

End WithConfig.

(** *** Vocabulary of the properties *)

(** The shortcode the loop reads off a link, if any. *)
Definition link_shortcode (l : link) : option string :=
  match href l with
  | Ok (Some h) => search_shortcode h
  | _ => None
  end.

(** An attempt that is answered with status 429. *)
Definition is_rate_limited (a : attempt_env) : bool :=
  match a with
  | Launched (Ok (Some 429, _)) => true
  | _ => false
  end.

(** *** Pages for the examples *)

(** A link to a post that holds an image, with the [src] of the image if
    it has one. *)
Definition post (path : string) (thumbnail : option string) : link :=
  {| href := Ok (Some path);
     img_src := Ok (Some thumbnail);
     video_indicator := Ok false |}.

(** Five links, the first post listed twice. *)
Definition grid : list link :=
  [post "/p/Cabc/" (Some "https://cdn.example/1.jpg");
   post "/p/Cabc/" (Some "https://cdn.example/1.jpg");
   post "/p/Cdef/" (Some "https://cdn.example/2.jpg");
   post "/p/Cghi/" (Some "https://cdn.example/3.jpg");
   post "/p/Cjkl/" (Some "https://cdn.example/4.jpg")].

Definition showing (links : list link) : page :=
  {| login_wall := Ok false;
     heading := Ok (Some "Club");
     post_links := Ok links;
     post_links_scrolled := Ok links |}.

(** Every attempt is answered with status 429. *)
Definition rate_limited : Z -> attempt_env :=
  fun _ => Launched (Ok (Some 429, showing [])).

(** The first attempt loads a page with these links. *)
Definition loads (links : list link) : Z -> attempt_env :=
  fun _ => Launched (Ok (Some 200, showing links)).

Definition club_url : string :=
  "https://www.instagram.com/explore/locations/1/club/".

End Scraper.

(** ** Pipeline and aggregation ([scout.py]) *)

Module Scout.
Import Py.
Export Analyzer.

(** A number in the summary: the [int] literal of the insufficient-data
    branch, or the [float] that [round(x, 1)] returns. *)
Inductive number :=
| Int (z : Z)
| Float (q : Q).

Definition number_value (n : number) : Q :=
  match n with
  | Int z => inject_Z z
  | Float q => q
  end.

(** The dict [_aggregate_vibes] returns. *)
Record summary := {
  avg_energy : number;
  avg_crowd : number;
  top_vibe_tags : list json;
  status : string;
  sample_size : nat
}.

(** *** Averages

    [avg = sum(xs) / len(xs)] on integers is the binary64 nearest to the
    exact quotient: [quotient xs].  The model decides the comparisons
    [avg >= 5] and [avg >= 7] on the exact mean [mean xs], in [Q], which
    gives the same answers: rounding to nearest is monotone and leaves 5,
    7 and the binary64 numbers just below them ([5 - 2^-50], [7 - 2^-50])
    unchanged, and a quotient [s/n] below a threshold [t] is below it by
    at least [1/n]; so for every list of at most [2^50] scores
    [sum(xs) / len(xs) >= t] holds exactly when the exact mean is at
    least [t] (lemma [ge_rounded_quotient] below).  [round(avg, 1)] is
    computed from the binary64 itself: the multiple of one tenth nearest
    to the value of [quotient xs], a tie going to the even one. *)
Definition sum (xs : list Z) : Z := foldr Z.add 0 xs.

Definition mean (xs : list Z) : Q := sum xs # Pos.of_nat (length xs).

Definition quotient (xs : list Z) : float :=
  true_div (sum xs) (Z.of_nat (length xs)).

(** [round(q, 1)] *)
Definition round1 (q : Q) : Q :=
  let scaled := 10 * Qnum q in
  let d := Z.pos (Qden q) in
  let lo := scaled / d in
  let twice_rest := 2 * (scaled mod d) in
  let tenths :=
    if twice_rest <? d then lo
    else if d <? twice_rest then lo + 1
    else if Z.even lo then lo else lo + 1 in
  tenths # 10.

(** [x >= t] for an integer literal [t]. *)
Definition ge (x : Q) (t : Z) : bool := Qle_bool (inject_Z t) x.

(** *** Tag counts

    [tag_counts] is a dict: an entry per key in the order of first
    insertion; counting a key again changes its value in place. *)
Fixpoint bump {K : Type} (eqb : K -> K -> bool) (tag : K)
    (counts : list (K * nat)) : list (K * nat) :=
  match counts with
  | [] => [(tag, 1%nat)]
  | (k, n) :: rest =>
      if eqb k tag then (k, S n) :: rest else (k, n) :: bump eqb tag rest
  end.

(** [tag_counts[tag] = tag_counts.get(tag, 0) + 1] *)
Definition count_tag (counts : list (json * nat)) (tag : json)
  : result (list (json * nat)) :=
  if hashable tag then Ok (bump key_eqb tag counts)
  else Raise (Exn TypeError "unhashable type").

(** [for tag in analysis.vibe_tags: ...] *)
Definition count_tags (counts : list (json * nat)) (analysis : VibeAnalysis)
  : result (list (json * nat)) :=
  tags ← iter (vibe_tags analysis);
  foldM count_tag tags counts.

(** [sorted(..., key=count, reverse=True)]: the sort is stable, also in
    reverse, so entries with equal counts keep their order.  A stable sort
    has one possible result; insertion from the right computes it. *)
Fixpoint insert_by_count {K : Type} (x : K * nat) (sorted : list (K * nat))
  : list (K * nat) :=
  match sorted with
  | [] => [x]
  | y :: rest =>
      if (snd y <=? snd x)%nat then x :: sorted
      else y :: insert_by_count x rest
  end.

Definition sorted_by_count {K : Type} (counts : list (K * nat)) : list (K * nat) :=
  foldr insert_by_count [] counts.

Definition contributes (a : VibeAnalysis) : bool :=
  success a && flt f0_3 (confidence a).

Definition classify (avg_energy avg_crowd : Q) : string :=
  if ge avg_energy 7 && ge avg_crowd 7 then "LIVE"
  else if ge avg_energy 5 || ge avg_crowd 5 then "warming_up"
  else "dead".

Definition insufficient : summary :=
  {| avg_energy := Int 5;
     avg_crowd := Int 5;
     top_vibe_tags := [JStr "Unknown"];
     status := "insufficient_data";
     sample_size := 0 |}.

Definition _aggregate_vibes (analyses : list VibeAnalysis) : result summary :=
  let successful := List.filter contributes analyses in
  match successful with
  | [] => Ok insufficient
  | _ =>
      let avg_energy := mean (map energy_level successful) in
      let avg_crowd := mean (map crowd_level successful) in
      tag_counts ← foldM count_tags successful [];
      let top_tags := take 4 (map fst (sorted_by_count tag_counts)) in
      Ok {| avg_energy :=
              Float (round1 (float_value (quotient (map energy_level successful))));
            avg_crowd :=
              Float (round1 (float_value (quotient (map crowd_level successful))));
            top_vibe_tags := match top_tags with
                             | [] => [JStr "Unknown"]
                             | _ => top_tags
                             end;
            status := classify avg_energy avg_crowd;
            sample_size := length successful |}
  end.

(** *** Vocabulary of the properties *)

Definition contributing (analyses : list VibeAnalysis) : list VibeAnalysis :=
  List.filter contributes analyses.

Fixpoint strings (l : list json) : option (list string) :=
  match l with
  | [] => Some []
  | JStr s :: l' => match strings l' with Some ss => Some (s :: ss) | None => None end
  | _ :: _ => None
  end.

(** The tags of a record whose [vibe_tags] is a list of strings, as its
    annotation [list[str]] says. *)
Definition str_tags (a : VibeAnalysis) : option (list string) :=
  match vibe_tags a with
  | JArr l => strings l
  | _ => None
  end.

Definition well_typed (a : VibeAnalysis) : Prop := is_Some (str_tags a).

(** The tags of a record can be counted: [vibe_tags] can be iterated and
    every tag is hashable. *)
Definition countable (a : VibeAnalysis) : Prop :=
  exists tags, iter (vibe_tags a) = Ok tags /\ forallb hashable tags = true.

(** The tags of the records, in the order the loops visit them. *)
Definition all_tags (l : list VibeAnalysis) : list string :=
  concat (map (fun a => default [] (str_tags a)) l).

Definition occurrences (t : string) (ts : list string) : nat :=
  length (List.filter (String.eqb t) ts).

(** The position at which [t] is first seen in [ts] (the length of [ts]
    when it never is). *)
Fixpoint first_index (t : string) (ts : list string) : nat :=
  match ts with
  | [] => 0
  | u :: ts' => if String.eqb u t then 0 else S (first_index t ts')
  end.

(** [t] is ranked before [u]: it is more frequent or, at equal frequency,
    first seen earlier. *)
Definition ranks_before (ts : list string) (t u : string) : Prop :=
  (occurrences u ts < occurrences t ts)%nat \/
  (occurrences t ts = occurrences u ts /\ (first_index t ts < first_index u ts)%nat).

(** The counts of a sequence of string tags, and its distinct tags in the
    order they are first seen. *)
Definition tally (ts : list string) : list (string * nat) :=
  foldl (fun counts t => bump String.eqb t counts) [] ts.

Definition firsts (ts : list string) : list string :=
  foldl (fun seen t => if bool_decide (t ∈ seen) then seen else (seen ++ [t])%list) [] ts.

(** A record for the examples: a successful analysis with confidence 0.5. *)
Definition scored (energy crowd : Z) (tags : list string) : VibeAnalysis :=
  {| image_url := "https://cdn.example/a.jpg";
     energy_level := energy;
     crowd_level := crowd;
     vibe_tags := JArr (map JStr tags);
     description := JStr "A crowded dance floor";
     confidence := f0_5;
     success := true;
     error := None |}.

(** A table of string tags, as a table of JSON keys. *)
Definition lift (entry : string * nat) : json * nat :=
  (JStr (fst entry), snd entry).

(** The order of a table sorted by decreasing count, ties in the order
    [before] of the keys. *)
Definition outranks {K : Type} (before : relation K) (x y : K * nat) : Prop :=
  (snd y < snd x)%nat \/ (snd x = snd y /\ before (fst x) (fst y)).

(** The tag lists of the example in the specification. *)
Definition techno_night : list VibeAnalysis :=
  [scored 8 8 ["Techno"; "Dark"]; scored 8 7 ["Techno"; "Hype"];
   scored 8 7 ["Dark"]].

(** Mean energy 8.0, mean crowd 7.5. *)
Definition live_night : list VibeAnalysis := [scored 8 8 []; scored 8 7 []].

(** 25 scores: mean energy 174/25 = 6.96, mean crowd 8. *)
Definition almost_live : list VibeAnalysis :=
  (replicate 24 (scored 7 8 ["House"]) ++ [scored 6 8 ["House"]])%list.

(** *** The pipeline *)

(** The three shapes of the dict [scout_location] returns. *)
Inductive report :=
| ScrapeFailed (error : option string) (location_url : string)
| NoPosts (location_url : string) (location_name : option string)
    (message : string)
| Report (location_url : string) (location_name : option string)
    (post_count : nat) (posts : list Scraper.MediaItem)
    (analyses : list VibeAnalysis) (vibe_summary : option summary).

(** The thumbnail URLs of the items that have one. *)
Definition thumbnails (items : list Scraper.MediaItem) : list string :=
  List.filter (fun u => negb (String.eqb u "")) (map Scraper.thumbnail_url items).

Section WithCollaborators.
Context (w : world) (max_retries : Z) (env : Z -> Scraper.attempt_env).

Definition scout_location (location_url : string) (max_posts : Z)
    (analyze_images : bool) : result report :=
  let scrape_result :=
    fst (Scraper.scrape_location max_retries env location_url max_posts) in
  if negb (Scraper.success scrape_result) then
    Ok (ScrapeFailed (Scraper.error scrape_result) location_url)
  else
    match Scraper.media_items scrape_result with
    | [] =>
        Ok (NoPosts location_url (Scraper.location_name scrape_result)
              "No posts found at this location")
    | _ =>
        analyses ←
          (if analyze_images then
             let thumbnail_urls :=
               thumbnails (Scraper.media_items scrape_result) in
             match thumbnail_urls with
             | [] => Ok []
             | _ => analyze_batch w thumbnail_urls
             end
           else Ok []);
        vibe_summary ←
          match analyses with
          | [] => Ok None
          | _ => s ← _aggregate_vibes analyses; Ok (Some s)
          end;
        (* the report is printed before it is returned:
           ', '.join(vibe_summary['top_vibe_tags']) *)
        _ ← match vibe_summary with
            | Some s => join ", " (top_vibe_tags s)
            | None => Ok ""
            end;
        Ok (Report location_url (Scraper.location_name scrape_result)
              (length (Scraper.media_items scrape_result))
              (Scraper.media_items scrape_result)
              analyses vibe_summary)
    end.

End WithCollaborators.

(** A page with one post whose image has no [src]. *)
Definition bare_post : list Scraper.link := [Scraper.post "/p/Cabc/" None].

(** The endpoint answers an empty object to every image. *)
Definition terse : world := replying "{}" (Ok (JObj [])).

End Scout.

(** ** Records as dicts ([analyzers/vibe_analyzer.py]) *)

Module Serialization.
Import Py Analyzer.

(** [analysis_to_dict]: the dict of the eight fields. *)
Definition analysis_to_dict (analysis : VibeAnalysis) : json :=
  JObj [("image_url", JStr (image_url analysis));
        ("energy_level", JInt (energy_level analysis));
        ("crowd_level", JInt (crowd_level analysis));
        ("vibe_tags", vibe_tags analysis);
        ("description", description analysis);
        ("confidence", JFloat (confidence analysis));
        ("success", JBool (success analysis));
        ("error", match error analysis with
                  | Some e => JStr e
                  | None => JNull
                  end)].

End Serialization.

(** ** Command line ([scout.py], [main]) *)

Module Cli.
Import Py Scout.

(** What [main] reaches outside the pipeline. *)
Record system := {
  getenv : string -> option string;              (* os.getenv, after load_dotenv *)
  write_file : string -> string -> result unit;  (* open(file, "w") and f.write(text) *)
  dumps : report -> string                       (* json.dumps(report, indent=2) *)
}.

Record options := {
  max_posts : Z;
  analyze : bool;
  output_file : option string
}.

(** The part of [s] after the first occurrence of [sep], if there is one. *)
Fixpoint after (sep s : string) : option string :=
  match s with
  | String _ s' =>
      if startswith sep s then Some (drop_str (String.length sep) s)
      else after sep s'
  | EmptyString => None
  end.

(** [arg.split("=")[1]] *)
Definition field1 (arg : string) : result string :=
  match after "=" arg with
  | Some rest => Ok (before "=" rest)
  | None => Raise (Exn IndexError "list index out of range")
  end.

Section WithParsers.
Context (P : str_parsers).

(** One turn of [for arg in sys.argv[2:]]. *)
Definition parse_option (o : options) (arg : string) : result options :=
  if startswith "--max-posts=" arg then
    value ← field1 arg;
    n ← int P (JStr value);
    Ok {| max_posts := n; analyze := analyze o; output_file := output_file o |}
  else if String.eqb arg "--no-analyze" then
    Ok {| max_posts := max_posts o; analyze := false; output_file := output_file o |}
  else if startswith "--output=" arg then
    value ← field1 arg;
    Ok {| max_posts := max_posts o; analyze := analyze o; output_file := Some value |}
  else Ok o.

Definition parse_options (args : list string) : result options :=
  foldM parse_option args
    {| max_posts := 10; analyze := true; output_file := None |}.

Context (sys : system).

(** [InstagramLocationScraper()]: the retry count it is configured with. *)
Definition new_scraper : result Z :=
  _ ← match getenv sys "SCRAPE_DELAY_SECONDS" with
      | Some s => float_ P (JStr s)
      | None => Ok (float_of_Z 3)
      end;
  match getenv sys "MAX_RETRIES" with
  | Some s => int P (JStr s)
  | None => Ok 3
  end.

(** [VibeAnalyzer(api_key)]: an empty key counts as no key. *)
Definition new_analyzer (api_key : option string) : result unit :=
  let given := match api_key with
               | Some EmptyString | None => getenv sys "ANTHROPIC_API_KEY"
               | Some k => Some k
               end in
  match given with
  | Some EmptyString | None =>
      Raise (Exn ValueError
        ("ANTHROPIC_API_KEY not found. Set it in .env or pass api_key parameter. "
         ++ "Get your key at: https://console.anthropic.com/settings/keys"))
  | Some _ => Ok ()
  end.

(** [ScoutEngine(anthropic_api_key)]: the scraper first, then the analyzer. *)
Definition new_engine (anthropic_api_key : option string) : result Z :=
  max_retries ← new_scraper;
  _ ← new_analyzer anthropic_api_key;
  Ok max_retries.

End WithParsers.

(** How a run of [main] ends. *)
Inductive ending :=
| Usage                                (* the usage text, exit status 1 *)
| Uncaught (e : exn)                   (* the exception leaves [main] *)
| ConfigurationError (msg : string)    (* "Configuration Error: ", exit status 1 *)
| OtherFailure (msg : string)          (* "Error: ", exit status 1 *)
| Saved (file text : string)
| Printed (text : string).

Section WithCollaborators.
Context (sys : system) (w : world) (env : Z -> Scraper.attempt_env).

(** The body of the [try]. *)
Definition run (location_url : string) (o : options) : result ending :=
  max_retries ← new_engine (parsers w) sys None;
  report ← scout_location w max_retries env location_url (max_posts o) (analyze o);
  let output_json := dumps sys report in
  match output_file o with
  | Some EmptyString | None => Ok (Printed output_json)
  | Some file =>
      _ ← write_file sys file output_json;
      Ok (Saved file output_json)
  end.

(** [main], on [sys.argv]. *)
Definition main (argv : list string) : ending :=
  match argv with
  | [] | [_] => Usage
  | _ :: location_url :: args =>
      match parse_options (parsers w) args with
      | Raise e => Uncaught e
      | Ok o =>
          match run location_url o with
          | Ok done => done
          | Raise e =>
              if catches [ValueError; JSONDecodeError] e
              then ConfigurationError (exn_msg e)
              else if catches Exception e then OtherFailure (exn_msg e)
              else Uncaught e
          end
      end
  end.

End WithCollaborators.

(** *** Systems for the examples *)

(** No variable is set, files can be written. *)
Definition bare_system : system :=
  {| getenv := fun _ => None;
     write_file := fun _ _ => Ok ();
     dumps := fun _ => "{}" |}.

(** Only the API key is set. *)
Definition keyed_system : system :=
  {| getenv := fun name =>
       if String.eqb name "ANTHROPIC_API_KEY" then Some "sk-test" else None;
     write_file := fun _ _ => Ok ();
     dumps := fun _ => "{}" |}.

End Cli.

(** ** Vocabulary of the further properties *)

Module ScrapeTerms.
Import Py Scraper.

(** Every character of [s] passes [p]. *)
Fixpoint all_chars (p : ascii -> bool) (s : string) : bool :=
  match s with
  | String c s' => p c && all_chars p s'
  | EmptyString => true
  end.

(** [s] is empty or starts with a character that fails [p]. *)
Definition stops (p : ascii -> bool) (s : string) : bool :=
  match s with
  | String c _ => negb (p c)
  | EmptyString => true
  end.

(** The URL the extraction builds for a shortcode. *)
Definition post_url (code : string) : string :=
  "https://www.instagram.com/p/" ++ code ++ "/".

(** Both queries inside the link (the image and the video icon) answer. *)
Definition answers (l : link) : bool :=
  match img_src l, video_indicator l with
  | Ok _, Ok _ => true
  | _, _ => false
  end.

(** How one attempt ends, whatever the state of the sessions: the page is
    read, the server answers 429, or an exception reaches the handler. *)
Inductive attempt_outcome :=
| Loaded (name : option string) (items : list MediaItem)
| Limited
| Failed (msg : string).

Definition outcome (max_items : Z) (a : attempt_env) : attempt_outcome :=
  match a with
  | LaunchFails e | Launched (Raise e) => Failed (exn_msg e)
  | Launched (Ok (response, p)) =>
      if bool_decide (response = Some 429) then Limited
      else match read_page response p max_items with
           | Ok (name, items) => Loaded name items
           | Raise e => Failed (exn_msg e)
           end
  end.

(** The result of an attempt that read the page. *)
Definition loaded (location_url : string) (name : option string)
    (items : list MediaItem) : ScrapeResult :=
  {| location_url := location_url; location_name := name;
     media_items := items; success := true; error := None |}.

Definition is_loaded (o : attempt_outcome) : bool :=
  match o with
  | Loaded _ _ => true
  | _ => false
  end.

(** The pauses of a log, in seconds. *)
Definition sleeps (l : list event) : list Z :=
  omap (fun ev => match ev with Sleep s => Some s | _ => None end) l.

(** Every attempt raises before the page is shown. *)
Definition crashes (msg : string) : Z -> attempt_env :=
  fun _ => Launched (Raise (Exn OtherError msg)).

(** The first attempt is rate limited, the next ones load a page with
    these links. *)
Definition limited_then_loads (links : list link) : Z -> attempt_env :=
  fun attempt =>
    if attempt =? 0 then Launched (Ok (Some 429, showing []))
    else Launched (Ok (Some 200, showing links)).

(** A link to a post whose image query raises. *)
Definition broken_post (path : string) : link :=
  {| href := Ok (Some path);
     img_src := Raise (Exn OtherError "Element is not attached to the DOM");
     video_indicator := Ok false |}.

End ScrapeTerms.

Module ReplyTerms.
Import Py Analyzer ScrapeTerms.

(** No character of [s] is a backtick. *)
Definition no_backtick (s : string) : bool :=
  all_chars (fun c => negb (Ascii.eqb c "`"%char)) s.

(** A confidence the clamp leaves as it is: the float 0.0 or a float above
    it, and at most 1.0. *)
Definition in_unit (f : float) : Prop :=
  (f = f0_0 \/ flt f0_0 f = true) /\ fle f f1_0 = true.

(** The reply decodes to an object whose confidence is not a number. *)
Definition nan_confidence_world : world :=
  replying "{}" (Ok (JObj [("confidence", JFloat S754_nan)])).

(** The reply decodes to a list instead of an object. *)
Definition list_reply_world : world :=
  replying "[]" (Ok (JArr [])).

(** A reply in the format the prompt asks for, and its decoding. *)
Definition conforming_world : world :=
  replying "{}"
    (Ok (JObj [("energy_level", JInt 8); ("crowd_level", JInt 7);
               ("vibe_tags", JArr [JStr "Techno"; JStr "Dark"]);
               ("description", JStr "A packed dance floor");
               ("confidence", JFloat f0_5)])).

End ReplyTerms.

Module ReportTerms.
Import Py Scout.

(** The endpoint answers with tags that are numbers. *)
Definition numeric_tags_world : world :=
  replying "{}" (Ok (JObj [("vibe_tags", JArr [JInt 1; JInt 2])])).

End ReportTerms.

(** * Properties *)

(** ** Exceptions as values *)

Module ResultProps.
Import Py.

(** A sequence of two steps returns only if both do. *)
Lemma bind_Ok {A B : Type} (m : result A) (f : A -> result B) (b : B) :
  m ≫= f = Ok b -> exists a, m = Ok a /\ f a = Ok b.
Proof. destruct m as [a|e]; simpl; [eauto | discriminate]. Qed.

(** The first step that raises decides the exception. *)
Lemma bind_Raise {A B : Type} (m : result A) (f : A -> result B) (e : exn) :
  m ≫= f = Raise e <-> m = Raise e \/ exists a, m = Ok a /\ f a = Raise e.
Proof.
  destruct m as [a|e']; simpl; split.
  - eauto.
  - intros [H | (a' & [= <-] & H)]; [discriminate | assumption].
  - intros [= ->]. now left.
  - intros [[= ->] | (a & H & _)]; [reflexivity | discriminate].
Qed.

End ResultProps.

(** ** The analyzer *)

Module AnalyzerProps.
Import Py Analyzer ResultProps.

Lemma flt_fle (x y : float) : flt x y = true -> fle x y = true.
Proof.
  unfold flt, fle, SFltb, SFleb.
  destruct (SFcompare x y) as [[]|]; congruence.
Qed.

Lemma clamp_level_range (n : Z) : 1 <= clamp_level n <= 10.
Proof. unfold clamp_level. lia. Qed.

Lemma clamp_unit_range (x : float) :
  fle f0_0 (clamp_unit x) = true /\ fle (clamp_unit x) f1_0 = true.
Proof.
  unfold clamp_unit, fmin, fmax.
  destruct (flt x f1_0) eqn:Hhi.
  - destruct (flt f0_0 x) eqn:Hlo.
    + split; now apply flt_fle.
    + split; reflexivity.
  - replace (flt f0_0 f1_0) with true by reflexivity.
    split; reflexivity.
Qed.

Lemma substring_length (n : nat) (s : string) :
  (String.length (substring 0 n s) <= n)%nat.
Proof.
  revert s. induction n as [|n IH]; intros [|c s]; simpl; try lia.
  specialize (IH s). lia.
Qed.

Lemma slice4_len (v t : json) :
  slice4 v = Ok t -> exists n, len t = Some n /\ (n <= 4)%nat.
Proof.
  destruct v; simpl; intros H; inversion H; subst; simpl.
  - eexists; split; [reflexivity | apply substring_length].
  - eexists; split; [reflexivity |]. rewrite length_take. lia.
Qed.

Lemma degraded_in_ranges (url descr err : string) :
  in_ranges (degraded url descr err).
Proof.
  unfold in_ranges, degraded; simpl.
  repeat split; try lia.
  exists 1%nat. split; [reflexivity | lia].
Qed.

Lemma parse_body_in_ranges (w : world) (text url : string) (a : VibeAnalysis) :
  parse_body w text url = Ok a -> in_ranges a.
Proof.
  unfold parse_body. intros H.
  apply bind_Ok in H as (data & _ & H).
  apply bind_Ok in H as (energy & _ & H).
  apply bind_Ok in H as (crowd & _ & H).
  apply bind_Ok in H as (tags & Htags & H).
  apply bind_Ok in H as (descr & _ & H).
  apply bind_Ok in H as (conf & _ & H).
  inversion H; subst; clear H.
  apply bind_Ok in Htags as (v & _ & Htags).
  unfold in_ranges; simpl.
  repeat split; try apply clamp_level_range; try apply clamp_unit_range.
  eapply slice4_len; eassumption.
Qed.

Lemma parse_response_in_ranges (w : world) (text url : string) (a : VibeAnalysis) :
  _parse_response w text url = Ok a -> in_ranges a.
Proof.
  unfold _parse_response.
  destruct (parse_body w text url) as [a'|e] eqn:Hbody.
  - intros H; inversion H; subst. eapply parse_body_in_ranges; eassumption.
  - destruct (catches _ e); intros H; inversion H.
    apply degraded_in_ranges.
Qed.

Lemma catches_Exception (e : exn) : catches Exception e = true.
Proof.
  unfold catches, Exception. apply bool_decide_eq_true.
  destruct e as [[] msg]; simpl; set_solver.
Qed.

(** The handlers of [analyze_image] leave no exception uncaught. *)
Lemma analyze_image_total (w : world) (url : string) :
  exists a, analyze_image w url = Ok a.
Proof.
  unfold analyze_image.
  destruct (analyze_body w url) as [a|e]; [eauto |].
  destruct (catches [HTTPError] e); [eauto |].
  rewrite catches_Exception. eauto.
Qed.

(** C2.  Whatever the image URL, the fetch and the endpoint do, the score
    [analyze_image] returns has its energy and crowd levels in 1..10, its
    confidence in 0.0..1.0 and at most four tags. *)
Theorem score_in_ranges (w : world) (url : string) :
  exists a, analyze_image w url = Ok a /\ in_ranges a.
Proof.
  destruct (analyze_image_total w url) as [a Ha].
  exists a. split; [exact Ha |].
  revert Ha. unfold analyze_image.
  destruct (analyze_body w url) as [a'|e] eqn:Hbody.
  - intros H; inversion H; subst a'.
    unfold analyze_body in Hbody.
    apply bind_Ok in Hbody as (text & _ & Hbody).
    eapply parse_response_in_ranges; eassumption.
  - destruct (catches [HTTPError] e).
    + intros H; inversion H. apply degraded_in_ranges.
    + rewrite catches_Exception. intros H; inversion H.
      apply degraded_in_ranges.
Qed.

Lemma parse_body_success (w : world) (text url : string) (a : VibeAnalysis) :
  parse_body w text url = Ok a -> success a = true /\ error a = None.
Proof.
  unfold parse_body. intros H.
  repeat (apply bind_Ok in H as (? & _ & H)).
  inversion H; subst. split; reflexivity.
Qed.

Lemma analyze_image_of_reply (w : world) (url text : string) :
  reply_text w url = Ok text ->
  analyze_body w url = _parse_response w text url.
Proof. unfold analyze_body. intros ->. reflexivity. Qed.

Lemma parse_failed_image (w : world) (url text : string) (e : exn) :
  reply_text w url = Ok text ->
  parse_body w text url = Raise e ->
  catches [JSONDecodeError; KeyError; TypeError] e = true ->
  analyze_image w url =
    Ok (degraded url "Failed to parse analysis" ("Parse error: " ++ exn_msg e)).
Proof.
  intros Hreply Hbody Hcatch.
  unfold analyze_image. rewrite (analyze_image_of_reply _ _ _ Hreply).
  unfold _parse_response. rewrite Hbody, Hcatch. reflexivity.
Qed.

(** A reply inside a code fence is read as the same reply without it. *)
Example fenced_reply :
  unfence "```json
[5, 7]
```" = "[5, 7]" /\ unfence "  [5, 7]
" = "[5, 7]".
Proof. split; reflexivity. Qed.

(** An analysis that does not raise: the reply, decoded to the empty
    object, gives the record of defaults. *)
Example empty_object_is_a_success :
  analyze_image (replying "{}" (Ok (JObj []))) "https://cdn.example/a.jpg"
  = Ok (defaults "https://cdn.example/a.jpg").
Proof. reflexivity. Qed.

(** An unexpected failure whose message is empty leaves the error
    description empty. *)
Example silent_failure_has_empty_error :
  exists a,
    analyze_image (unreachable (Exn OtherError "")) "https://cdn.example/a.jpg" = Ok a /\
    success a = false /\ error a = Some "".
Proof. eexists. repeat split. Qed.

(** C3.  [analyze_image] never raises.  A failure of the image fetch, or
    of a later step, with an HTTP error gives the record energy 5, crowd 5, tags "Unknown",
    confidence 0.0, no success, description "Failed to fetch image" and
    error "HTTP error: " followed by the message; a parse failure (the
    parsing raises [JSONDecodeError], [KeyError] or [TypeError]) gives the
    same record with "Failed to parse analysis" and "Parse error: "
    followed by the message; any other exception gives it with "Analysis
    failed" and the message alone; and when the parsing returns, its
    record is returned, a success without error.  Conversely a record that
    is not a success is the degraded record of one of the three failures.
    So a failed record always carries an error description, and the
    description is empty only when an exception other than an HTTP error
    carried an empty message. *)
Theorem analyze_image_never_raises (w : world) (url : string) :
  exists a,
    analyze_image w url = Ok a /\
    (forall e, analyze_body w url = Raise e ->
       a = if catches [HTTPError] e
           then degraded url "Failed to fetch image" ("HTTP error: " ++ exn_msg e)
           else degraded url "Analysis failed" (exn_msg e)) /\
    (success a = false ->
       energy_level a = 5 /\ crowd_level a = 5 /\
       vibe_tags a = JArr [JStr "Unknown"] /\ confidence a = f0_0 /\
       exists e,
         (a = degraded url "Failed to fetch image" ("HTTP error: " ++ exn_msg e) \/
          a = degraded url "Failed to parse analysis" ("Parse error: " ++ exn_msg e) \/
          a = degraded url "Analysis failed" (exn_msg e) /\
          analyze_body w url = Raise e /\ catches [HTTPError] e = false)) /\
    (forall e, _fetch_image_as_base64 w url = Raise e -> exn_cls e = HTTPError ->
       a = {| image_url := url; energy_level := 5; crowd_level := 5;
              vibe_tags := JArr [JStr "Unknown"];
              description := JStr "Failed to fetch image"; confidence := f0_0;
              success := false; error := Some ("HTTP error: " ++ exn_msg e) |}) /\
    (forall e, analyze_body w url = Raise e -> exn_cls e = HTTPError ->
       a = {| image_url := url; energy_level := 5; crowd_level := 5;
              vibe_tags := JArr [JStr "Unknown"];
              description := JStr "Failed to fetch image"; confidence := f0_0;
              success := false; error := Some ("HTTP error: " ++ exn_msg e) |}) /\
    (forall text e, reply_text w url = Ok text -> parse_body w text url = Raise e ->
       exn_cls e = JSONDecodeError \/ exn_cls e = KeyError \/ exn_cls e = TypeError ->
       a = {| image_url := url; energy_level := 5; crowd_level := 5;
              vibe_tags := JArr [JStr "Unknown"];
              description := JStr "Failed to parse analysis"; confidence := f0_0;
              success := false; error := Some ("Parse error: " ++ exn_msg e) |}) /\
    (forall e, analyze_body w url = Raise e -> exn_cls e <> HTTPError ->
       a = {| image_url := url; energy_level := 5; crowd_level := 5;
              vibe_tags := JArr [JStr "Unknown"];
              description := JStr "Analysis failed"; confidence := f0_0;
              success := false; error := Some (exn_msg e) |}) /\
    (forall text a', reply_text w url = Ok text -> parse_body w text url = Ok a' ->
       a = a' /\ success a = true /\ error a = None).
Proof.
  assert (Hhttp_cls : forall e, catches [HTTPError] e = true <-> exn_cls e = HTTPError).
  { intros e. unfold catches. rewrite bool_decide_eq_true. set_solver. }
  assert (Hparse_cls : forall e,
            exn_cls e = JSONDecodeError \/ exn_cls e = KeyError \/ exn_cls e = TypeError ->
            catches [JSONDecodeError; KeyError; TypeError] e = true).
  { intros e He. unfold catches. rewrite bool_decide_eq_true. set_solver. }
  assert (Hfetch : forall e, _fetch_image_as_base64 w url = Raise e ->
            analyze_body w url = Raise e).
  { intros e He. unfold analyze_body, reply_text. now rewrite He. }
  unfold analyze_image.
  destruct (analyze_body w url) as [a|e] eqn:Hbody.
  - exists a. split; [reflexivity |]. split; [discriminate |].
    unfold analyze_body in Hbody.
    destruct (reply_text w url) as [text|e0] eqn:Hreply; [| discriminate].
    cbn [mbind result_bind] in Hbody. unfold _parse_response in Hbody.
    split; [| split; [| split; [| split; [| split]]]].
    + intros Hfail.
      destruct (parse_body w text url) as [a'|e] eqn:Hpb.
      * inversion Hbody; subst a'.
        apply parse_body_success in Hpb as [Hs _]. congruence.
      * destruct (catches _ e); inversion Hbody; subst a; simpl.
        repeat split. exists e. right. left. reflexivity.
    + intros e He. apply Hfetch in He. discriminate He.
    + discriminate.
    + intros text' e [= <-] Hpb Hcls. rewrite Hpb, (Hparse_cls e Hcls) in Hbody.
      now injection Hbody as <-.
    + discriminate.
    + intros text' a' [= <-] Hpb. rewrite Hpb in Hbody. injection Hbody as <-.
      apply parse_body_success in Hpb as [Hs He]. auto.
  - assert (Hnot : forall text a', reply_text w url = Ok text ->
              parse_body w text url = Ok a' -> False).
    { intros text a' Hreply Hpb. unfold analyze_body in Hbody.
      rewrite Hreply in Hbody. cbn [mbind result_bind] in Hbody.
      unfold _parse_response in Hbody. now rewrite Hpb in Hbody. }
    assert (Hcaught : forall text e', reply_text w url = Ok text ->
              parse_body w text url = Raise e' ->
              catches [JSONDecodeError; KeyError; TypeError] e' = true -> False).
    { intros text e' Hreply Hpb Hc. unfold analyze_body in Hbody.
      rewrite Hreply in Hbody. cbn [mbind result_bind] in Hbody.
      unfold _parse_response in Hbody. now rewrite Hpb, Hc in Hbody. }
    destruct (catches [HTTPError] e) eqn:Hhttp.
    + eexists. split; [reflexivity |].
      split; [| split; [| split; [| split; [| split; [| split]]]]].
      * intros e' He'. inversion He'; subst e'. now rewrite Hhttp.
      * intros _. simpl. repeat split. exists e. left. reflexivity.
      * intros e' He' _. apply Hfetch in He'. now injection He' as <-.
      * intros e' [= <-] _. reflexivity.
      * intros text e' Hreply Hpb Hcls. destruct (Hcaught text e' Hreply Hpb).
        now apply Hparse_cls.
      * intros e' [= <-] Hcls. apply Hhttp_cls in Hhttp. contradiction.
      * intros text a' Hreply Hpb. destruct (Hnot text a' Hreply Hpb).
    + rewrite catches_Exception.
      eexists. split; [reflexivity |].
      split; [| split; [| split; [| split; [| split; [| split]]]]].
      * intros e' He'. inversion He'; subst e'. now rewrite Hhttp.
      * intros _. simpl. repeat split. exists e. right. right.
        repeat split. assumption.
      * intros e' He' Hcls. apply Hfetch in He'. injection He' as <-.
        apply Hhttp_cls in Hcls. congruence.
      * intros e' [= <-] Hcls. apply Hhttp_cls in Hcls. congruence.
      * intros text e' Hreply Hpb Hcls. destruct (Hcaught text e' Hreply Hpb).
        now apply Hparse_cls.
      * intros e' [= <-] _. reflexivity.
      * intros text a' Hreply Hpb. destruct (Hnot text a' Hreply Hpb).
Qed.

(** C8.  When the reply is malformed JSON, or the parsing raises a
    [TypeError] or [KeyError] (as it does on a field that is null, an
    array or an object where a number is expected), [analyze_image]
    returns the degraded record (energy 5, crowd 5, tags "Unknown",
    confidence 0.0, no success) with the description "Failed to parse
    analysis" and the error "Parse error: " followed by the message.  A
    missing field is no failure: for every object, each field that is
    missing takes the default of its [data.get] (energy 5, crowd 5, no
    tag, "Unable to analyze", confidence 0.5), and when the fields that
    are present convert, the record is a success; so it is for the empty
    object, for an object without any of the five fields and for a reply
    that lacks its confidence only. *)
Theorem parse_failure_degrades (w : world) (url text : string) :
  reply_text w url = Ok text ->
  (forall e, json_loads w (unfence text) = Raise e ->
     exn_cls e = JSONDecodeError ->
     analyze_image w url =
       Ok (degraded url "Failed to parse analysis" ("Parse error: " ++ exn_msg e))) /\
  (forall e, parse_body w text url = Raise e ->
     exn_cls e = TypeError \/ exn_cls e = KeyError ->
     analyze_image w url =
       Ok (degraded url "Failed to parse analysis" ("Parse error: " ++ exn_msg e))) /\
  (forall m v, json_loads w (unfence text) = Ok (JObj m) ->
     assoc "energy_level" m = Some v -> not_a_number v = true ->
     exists msg,
       analyze_image w url =
         Ok (degraded url "Failed to parse analysis" ("Parse error: " ++ msg))) /\
  (json_loads w (unfence text) = Ok (JObj []) ->
     analyze_image w url = Ok (defaults url)) /\
  (forall descr err,
     degraded url descr err =
     {| image_url := url; energy_level := 5; crowd_level := 5;
        vibe_tags := JArr [JStr "Unknown"]; description := JStr descr;
        confidence := f0_0; success := false; error := Some err |}) /\
  (forall m energy crowd tags conf,
     json_loads w (unfence text) = Ok (JObj m) ->
     int (parsers w) (default (JInt 5) (assoc "energy_level" m)) = Ok energy ->
     int (parsers w) (default (JInt 5) (assoc "crowd_level" m)) = Ok crowd ->
     slice4 (default (JArr []) (assoc "vibe_tags" m)) = Ok tags ->
     float_ (parsers w) (default (JFloat f0_5) (assoc "confidence" m)) = Ok conf ->
     analyze_image w url =
       Ok {| image_url := url; energy_level := clamp_level energy;
             crowd_level := clamp_level crowd; vibe_tags := tags;
             description :=
               default (JStr "Unable to analyze") (assoc "description" m);
             confidence := clamp_unit conf; success := true; error := None |}) /\
  (forall m, json_loads w (unfence text) = Ok (JObj m) ->
     assoc "energy_level" m = None -> assoc "crowd_level" m = None ->
     assoc "vibe_tags" m = None -> assoc "description" m = None ->
     assoc "confidence" m = None ->
     analyze_image w url =
       Ok {| image_url := url; energy_level := 5; crowd_level := 5;
             vibe_tags := JArr []; description := JStr "Unable to analyze";
             confidence := f0_5; success := true; error := None |}) /\
  (forall m, json_loads w (unfence text) = Ok (JObj m) ->
     assoc "energy_level" m = Some (JInt 8) -> assoc "crowd_level" m = Some (JInt 7) ->
     assoc "vibe_tags" m = Some (JArr [JStr "Techno"]) ->
     assoc "description" m = Some (JStr "A packed dance floor") ->
     assoc "confidence" m = None ->
     exists a, analyze_image w url = Ok a /\ success a = true /\ error a = None /\
       energy_level a = 8 /\ crowd_level a = 7 /\ confidence a = f0_5).
Proof.
  intros Hreply.
  assert (Hobject : forall m energy crowd tags conf,
     json_loads w (unfence text) = Ok (JObj m) ->
     int (parsers w) (default (JInt 5) (assoc "energy_level" m)) = Ok energy ->
     int (parsers w) (default (JInt 5) (assoc "crowd_level" m)) = Ok crowd ->
     slice4 (default (JArr []) (assoc "vibe_tags" m)) = Ok tags ->
     float_ (parsers w) (default (JFloat f0_5) (assoc "confidence" m)) = Ok conf ->
     analyze_image w url =
       Ok {| image_url := url; energy_level := clamp_level energy;
             crowd_level := clamp_level crowd; vibe_tags := tags;
             description :=
               default (JStr "Unable to analyze") (assoc "description" m);
             confidence := clamp_unit conf; success := true; error := None |}).
  { intros m energy crowd tags conf Hloads He Hc Ht Hf.
    unfold analyze_image. rewrite (analyze_image_of_reply _ _ _ Hreply).
    unfold _parse_response, parse_body. rewrite Hloads.
    cbn [mbind result_bind get].
    change (match assoc "energy_level" m with Some v => v | None => JInt 5 end)
      with (default (JInt 5) (assoc "energy_level" m)).
    change (match assoc "crowd_level" m with Some v => v | None => JInt 5 end)
      with (default (JInt 5) (assoc "crowd_level" m)).
    change (match assoc "vibe_tags" m with Some v => v | None => JArr [] end)
      with (default (JArr []) (assoc "vibe_tags" m)).
    change (match assoc "confidence" m with Some v => v | None => JFloat f0_5 end)
      with (default (JFloat f0_5) (assoc "confidence" m)).
    rewrite He. cbn [mbind result_bind]. rewrite Hc. cbn [mbind result_bind].
    rewrite Ht. cbn [mbind result_bind]. rewrite Hf. reflexivity. }
  split; [| split; [| split; [| split; [| split; [| split; [| split]]]]]].
  - intros e Hloads Hcls.
    apply (parse_failed_image w url text e Hreply).
    + unfold parse_body. rewrite Hloads. reflexivity.
    + unfold catches. rewrite Hcls. reflexivity.
  - intros e Hbody Hcls.
    apply (parse_failed_image w url text e Hreply Hbody).
    unfold catches. destruct Hcls as [-> | ->]; reflexivity.
  - intros m v Hloads Hfield Hv.
    destruct v; try discriminate Hv; eexists;
      (eapply (parse_failed_image w url text _ Hreply);
       [ unfold parse_body; rewrite Hloads; simpl; rewrite Hfield; reflexivity
       | reflexivity ]).
  - intros Hloads.
    unfold analyze_image. rewrite (analyze_image_of_reply _ _ _ Hreply).
    unfold _parse_response, parse_body. rewrite Hloads. reflexivity.
  - reflexivity.
  - exact Hobject.
  - intros m Hloads He Hc Ht Hd Hf.
    rewrite (Hobject m 5 5 (JArr []) f0_5 Hloads);
      rewrite ?He, ?Hc, ?Ht, ?Hd, ?Hf; reflexivity.
  - intros m Hloads He Hc Ht Hd Hf.
    rewrite (Hobject m 8 7 (JArr [JStr "Techno"]) f0_5 Hloads);
      rewrite ?He, ?Hc, ?Ht, ?Hd, ?Hf; try reflexivity.
    eexists. split; [reflexivity |]. repeat split.
Qed.

Lemma parse_failure_degrades_witness :
  reply_text null_energy_world "https://cdn.example/a.jpg" = Ok null_energy_reply /\
  exists msg,
    analyze_image null_energy_world "https://cdn.example/a.jpg" =
      Ok (degraded "https://cdn.example/a.jpg" "Failed to parse analysis"
            ("Parse error: " ++ msg)).
Proof.
  split; [reflexivity |].
  destruct (parse_failure_degrades null_energy_world
              "https://cdn.example/a.jpg" null_energy_reply eq_refl)
    as (_ & _ & Hfield & _).
  exact (Hfield [("energy_level", JNull)] JNull eq_refl eq_refl eq_refl).
Defined.

End AnalyzerProps.

(** ** The scraper *)

Module ScraperProps.
Import Py Scraper.


(** *** Media extraction *)

(** One turn of the loop: the set of seen shortcodes only grows, and an
    item is appended only for a link whose shortcode was not seen. *)
Lemma examine_spec (l : link) (seen seen' : gset string) (item : option MediaItem) :
  examine l seen = (seen', item) ->
  seen ⊆ seen' /\
  match item with
  | None => True
  | Some it =>
      link_shortcode l = Some (shortcode it) /\ (shortcode it ∉ seen) /\
      (shortcode it ∈ seen')
  end.
Proof.
  unfold examine, link_shortcode.
  destruct (href l) as [[h|]|e]; try (intros [= <- <-]; split; [reflexivity | exact I]).
  destruct h as [|c h]; [intros [= <- <-]; split; [reflexivity | exact I] |].
  destruct (search_shortcode (String c h)) as [code|];
    [| intros [= <- <-]; split; [reflexivity | exact I]].
  case_bool_decide as Hseen; [intros [= <- <-]; split; [reflexivity | exact I] |].
  destruct (img_src l) as [img|e], (video_indicator l) as [video|e'];
    intros [= <- <-]; (split; [set_solver |]); try exact I.
  simpl. repeat split; [assumption | set_solver].
Qed.

Lemma extract_loop_spec (max_items : Z) (links : list link) :
  forall (seen : gset string) (media_items : list MediaItem),
  Z.of_nat (length media_items) <= Z.max 0 max_items ->
  exists new,
    extract_loop max_items links seen media_items = (media_items ++ new)%list /\
    Z.of_nat (length (media_items ++ new)) <= Z.max 0 max_items /\
    NoDup (map shortcode new) /\
    (forall it, it ∈ new -> shortcode it ∉ seen) /\
    map shortcode new `sublist_of` omap link_shortcode links.
Proof.
  induction links as [|l links IH]; intros seen items Hlen; simpl.
  - exists []. rewrite app_nil_r. repeat split; try constructor; [assumption | set_solver].
  - destruct (Z.leb_spec max_items (Z.of_nat (length items))) as [Hfull|Hroom].
    + exists []. rewrite app_nil_r.
      repeat split; try constructor; [assumption | set_solver | apply sublist_nil_l].
    + destruct (examine l seen) as [seen' item] eqn:Hex.
      apply examine_spec in Hex as [Hsub Hitem].
      destruct item as [it|]; simpl.
      * destruct Hitem as (Hcode & Hfresh & Hin).
        destruct (IH seen' (items ++ [it])%list) as (new & -> & Hlen' & Hnd & Hnew & Hsl).
        { rewrite length_app. simpl. lia. }
        exists (it :: new). rewrite <- app_assoc. simpl.
        split; [reflexivity |]. rewrite <- app_assoc in Hlen'. simpl in Hlen'.
        split; [assumption |]. split; [| split].
        -- constructor; [| assumption].
           intros Hdup. apply list_elem_of_fmap in Hdup as (it' & Heq & Hit').
           apply (Hnew it' Hit'). now rewrite <- Heq.
        -- intros it' [-> | Hit']%elem_of_cons; [assumption |].
           intros Hs. apply (Hnew it' Hit'). now apply Hsub.
        -- rewrite Hcode. now apply sublist_skip.
      * rewrite app_nil_r.
        destruct (IH seen' items Hlen) as (new & -> & Hlen' & Hnd & Hnew & Hsl).
        exists new. repeat split; try assumption.
        -- intros it Hit Hs. apply (Hnew it Hit). now apply Hsub.
        -- destruct (link_shortcode l); [now apply sublist_cons | assumption].
Qed.

Lemma extract_distinct (links : result (list link)) (max_items : Z)
    (items : list MediaItem) :
  0 <= max_items ->
  _extract_media_from_page links max_items = Ok items ->
  Z.of_nat (length items) <= max_items /\ NoDup (map shortcode items).
Proof.
  intros Hmax. unfold _extract_media_from_page.
  destruct links as [ls|e]; [| discriminate].
  cbn [mbind result_bind]. intros [= <-].
  destruct (extract_loop_spec max_items (slice_to (max_items * 2) ls) ∅ [])
    as (new & -> & Hlen & Hnd & _); [simpl; lia |].
  simpl in *. split; [lia | assumption].
Qed.

(** C7.  For a page with the post links [links] and a limit
    [max_items >= 0], the extraction returns at most [max_items] items,
    with pairwise distinct shortcodes, in the order of the page, and
    reads only the first [2 * max_items] links. *)
Theorem extraction_is_bounded_and_distinct (links : list link) (max_items : Z) :
  0 <= max_items ->
  let examined := take (Z.to_nat (2 * max_items)) links in
  exists items,
    _extract_media_from_page (Ok links) max_items = Ok items /\
    Z.of_nat (length items) <= max_items /\
    NoDup (map shortcode items) /\
    map shortcode items `sublist_of` omap link_shortcode examined /\
    (forall links', take (Z.to_nat (2 * max_items)) links' = examined ->
       _extract_media_from_page (Ok links') max_items = Ok items).
Proof.
  intros Hmax examined.
  assert (Hslice : forall ls : list link,
            slice_to (max_items * 2) ls = take (Z.to_nat (2 * max_items)) ls).
  { intros ls. unfold slice_to.
    destruct (Z.leb_spec 0 (max_items * 2)); [| lia].
    now rewrite Z.mul_comm. }
  destruct (extract_loop_spec max_items examined ∅ [])
    as (new & Hloop & Hlen & Hnd & _ & Hsl); [simpl; lia |].
  simpl in Hloop, Hlen.
  exists new. unfold _extract_media_from_page. cbn [mbind result_bind].
  rewrite Hslice. fold examined. rewrite Hloop.
  repeat split; try assumption; [lia |].
  intros links' Hsame. now rewrite Hslice, Hsame, Hloop.
Qed.

Lemma extraction_is_bounded_and_distinct_witness :
  exists items,
    _extract_media_from_page (Ok grid) 2 = Ok items /\
    Z.of_nat (length items) <= 2 /\
    NoDup (map shortcode items) /\
    map shortcode items `sublist_of` omap link_shortcode (take 4 grid) /\
    (forall links', take 4 links' = take 4 grid ->
       _extract_media_from_page (Ok links') 2 = Ok items).
Proof. apply (extraction_is_bounded_and_distinct grid 2). lia. Defined.

Example grid_extraction :
  exists items,
    _extract_media_from_page (Ok grid) 2 = Ok items /\
    map shortcode items = ["Cabc"; "Cdef"].
Proof. eexists. split; reflexivity. Qed.

(** A page without post links is a success with no item. *)
Example empty_page_is_a_success :
  fst (scrape_location 3 (loads []) club_url 10) =
  {| location_url := club_url; location_name := Some "Club";
     media_items := []; success := true; error := None |}.
Proof. reflexivity. Qed.

(** A negative limit breaks out of the loop at once. *)
Lemma extraction_negative_limit (links : list link) (max_items : Z) :
  max_items < 0 -> _extract_media_from_page (Ok links) max_items = Ok [].
Proof.
  intros Hneg. unfold _extract_media_from_page. cbn [mbind result_bind].
  destruct (slice_to (max_items * 2) links) as [|l ls]; [reflexivity |].
  cbn [extract_loop length]. change (Z.of_nat 0) with 0.
  destruct (Z.leb_spec max_items 0); [reflexivity | lia].
Qed.

(** The items of a scrape, over both extractions of an attempt and over
    the attempts: at most [max_items], with distinct shortcodes. *)
Lemma scrape_items_distinct (max_retries : Z) (env : Z -> attempt_env)
    (location_url : string) (max_items : Z) :
  0 <= max_items ->
  let r := fst (scrape_location max_retries env location_url max_items) in
  Z.of_nat (length (media_items r)) <= max_items /\
  NoDup (map shortcode (media_items r)).
Proof.
  intros Hmax r. subst r. unfold scrape_location.
  generalize (Z.to_nat max_retries) as remaining.
  generalize 0 as attempt. generalize initial as st.
  intros st attempt remaining. revert st attempt.
  induction remaining as [|remaining IH]; intros st attempt; simpl.
  - split; [lia | constructor].
  - assert (Hexc : forall e st',
              match on_exception max_retries location_url attempt e st' with
              | (Return r, _) => media_items r = []
              | (Continue, _) => True
              end).
    { intros e st'. unfold on_exception.
      destruct (attempt =? max_retries - 1); simpl; auto. }
    destruct (one_attempt max_retries env location_url max_items attempt st)
      as [[r|] st'] eqn:Hone; [| apply IH].
    simpl. unfold one_attempt in Hone.
    destruct (env attempt) as [e | [[response p] | e]].
    + specialize (Hexc e st). rewrite Hone in Hexc. rewrite Hexc.
      split; [simpl; lia | constructor].
    + case_bool_decide; [discriminate |].
      destruct (read_page response p max_items) as [[name items] | e] eqn:Hread.
      * injection Hone as <- _. simpl.
        unfold read_page in Hread.
        apply ResultProps.bind_Ok in Hread as (? & _ & Hread).
        apply ResultProps.bind_Ok in Hread as (wall & _ & Hread).
        apply ResultProps.bind_Ok in Hread as (? & _ & Hread).
        apply ResultProps.bind_Ok in Hread as (first & Hfirst & Hread).
        apply ResultProps.bind_Ok in Hread as (second & Hsecond & Hread).
        injection Hread as _ <-.
        destruct first as [|it first'].
        -- now apply (extract_distinct (post_links_scrolled p)).
        -- injection Hsecond as <-. now apply (extract_distinct (post_links p)).
      * specialize (Hexc e (launch st)). rewrite Hone in Hexc. rewrite Hexc.
        split; [simpl; lia | constructor].
    + specialize (Hexc e (launch st)). rewrite Hone in Hexc. rewrite Hexc.
      split; [simpl; lia | constructor].
Qed.

(** *** Browser sessions *)

(** An attempt that is not rate limited leaves no session open: the
    success path and the exception path both close the browser. *)
Lemma attempt_closes_session (max_retries : Z) (env : Z -> attempt_env)
    (location_url : string) (max_items attempt : Z) (st : state) :
  open_sessions st = [] ->
  is_rate_limited (env attempt) = false ->
  open_sessions (snd (one_attempt max_retries env location_url max_items attempt st)) = [].
Proof.
  intros Hclosed Hnot.
  assert (Hexc : forall e st', 
            (open_sessions st' = [] \/
             exists b, browser st' = Some b /\ open_sessions st' = [b]) ->
            open_sessions (snd (on_exception max_retries location_url attempt e st')) = []).
  { intros e st' Hst'. unfold on_exception.
    assert (Hafter : open_sessions
              (match browser st' with Some b => close b st' | None => st' end) = []).
    { destruct Hst' as [Hnone | (b & -> & Hb)].
      - destruct (browser st'); simpl; [| assumption]. now rewrite Hnone.
      - simpl. rewrite Hb. simpl. now rewrite Nat.eqb_refl. }
    destruct (attempt =? max_retries - 1); simpl; assumption. }
  unfold one_attempt.
  destruct (env attempt) as [e | [[response p] | e]].
  - apply Hexc. now left.
  - case_bool_decide as H429.
    { subst response. discriminate Hnot. }
    destruct (read_page response p max_items) as [[name items] | e].
    + simpl. rewrite Hclosed. simpl. now rewrite Nat.eqb_refl.
    + apply Hexc. right. exists (launched st). simpl. now rewrite Hclosed.
  - apply Hexc. right. exists (launched st). simpl. now rewrite Hclosed.
Qed.

(** C4 fails on the rate-limit path: a 429 goes on to the next attempt
    with the session still open, and when every attempt is rate limited
    the function returns with all three sessions open. *)
Theorem rate_limit_leaves_session_open :
  (forall max_retries env location_url max_items attempt st,
     is_rate_limited (env attempt) = true ->
     one_attempt max_retries env location_url max_items attempt st =
       (Continue, sleep (30 * (attempt + 1)) (launch st))) /\
  open_sessions (snd (one_attempt 3 rate_limited club_url 10 0 initial)) = [0%nat] /\
  scrape_location 3 rate_limited club_url 10 =
    (failure club_url "Max retries exceeded",
     {| browser := Some 2%nat; launched := 3;
        open_sessions := [0; 1; 2]%nat;
        log := [Launch 0; Sleep 30; Launch 1; Sleep 60; Launch 2; Sleep 90] |}).
Proof.
  split; [| split; reflexivity].
  intros max_retries env location_url max_items attempt st Hrl.
  unfold one_attempt.
  destruct (env attempt) as [e | [[[status|] p] | e]]; try discriminate Hrl.
  case_bool_decide as H429; [reflexivity |].
  exfalso. apply H429. f_equal.
  unfold is_rate_limited in Hrl.
  destruct status as [|q|q]; try discriminate Hrl.
  repeat (destruct q as [q|q|]; try discriminate Hrl). reflexivity.
Qed.

End ScraperProps.

(** ** The aggregator *)

Module AggregatorProps.
Import Py Scout.

(** *** Counting *)

Lemma occurrences_snoc (t k : string) (ts : list string) :
  occurrences t (ts ++ [k]) =
  (occurrences t ts + if String.eqb t k then 1 else 0)%nat.
Proof.
  unfold occurrences. rewrite List.filter_app, length_app. simpl.
  destruct (String.eqb t k); reflexivity.
Qed.

Lemma occurrences_absent (t : string) (ts : list string) :
  t ∉ ts -> occurrences t ts = 0%nat.
Proof.
  unfold occurrences. induction ts as [|u ts IH]; intros Hnot; [reflexivity |].
  simpl. apply not_elem_of_cons in Hnot as [Hne Hnot].
  destruct (String.eqb_spec t u); [congruence |]. auto.
Qed.

Lemma first_index_app_l (t : string) (ts l : list string) :
  t ∈ ts -> first_index t (ts ++ l) = first_index t ts.
Proof.
  induction ts as [|u ts IH]; intros Hin; [inversion Hin |].
  simpl. destruct (String.eqb_spec u t); [reflexivity |].
  f_equal. apply IH. apply elem_of_cons in Hin as [->|]; [congruence | assumption].
Qed.

Lemma first_index_lt (t : string) (ts : list string) :
  t ∈ ts -> (first_index t ts < length ts)%nat.
Proof.
  induction ts as [|u ts IH]; intros Hin; [inversion Hin |].
  simpl. destruct (String.eqb_spec u t); [lia |].
  apply elem_of_cons in Hin as [->|Hin]; [congruence |].
  specialize (IH Hin). lia.
Qed.

Lemma first_index_snoc_new (k : string) (ts : list string) :
  k ∉ ts -> first_index k (ts ++ [k]) = length ts.
Proof.
  induction ts as [|u ts IH]; intros Hnot; simpl.
  - now rewrite String.eqb_refl.
  - apply not_elem_of_cons in Hnot as [Hne Hnot].
    destruct (String.eqb_spec u k); [congruence |]. f_equal. auto.
Qed.

(** *** The distinct tags in first-seen order *)

Lemma firsts_snoc (ts : list string) (k : string) :
  firsts (ts ++ [k]) =
  if bool_decide (k ∈ firsts ts) then firsts ts else (firsts ts ++ [k])%list.
Proof. unfold firsts. now rewrite foldl_snoc. Qed.

Lemma elem_of_firsts (ts : list string) (t : string) : t ∈ firsts ts <-> t ∈ ts.
Proof.
  induction ts as [|k ts IH] using rev_ind; [reflexivity |].
  rewrite firsts_snoc. case_bool_decide as Hk; set_solver.
Qed.

Lemma NoDup_firsts (ts : list string) : NoDup (firsts ts).
Proof.
  induction ts as [|k ts IH] using rev_ind; [constructor |].
  rewrite firsts_snoc. case_bool_decide as Hk; [assumption |].
  apply NoDup_app. repeat split; [assumption | set_solver | apply NoDup_singleton].
Qed.

Lemma StronglySorted_on {A : Type} (R R' : relation A) (l : list A) :
  (forall x y, x ∈ l -> y ∈ l -> R x y -> R' x y) ->
  StronglySorted R l -> StronglySorted R' l.
Proof.
  intros Himpl Hs. induction Hs as [|x l Hs IH Hall]; constructor.
  - apply IH. intros y z Hy Hz. apply Himpl; now right.
  - rewrite Forall_forall in *. intros y Hy.
    apply Himpl; [left | now right | auto].
Qed.

Lemma firsts_sorted (ts : list string) :
  StronglySorted (fun t u => (first_index t ts < first_index u ts)%nat) (firsts ts).
Proof.
  induction ts as [|k ts IH] using rev_ind; [constructor |].
  assert (Hold : StronglySorted
            (fun t u => (first_index t (ts ++ [k]) < first_index u (ts ++ [k]))%nat)
            (firsts ts)).
  { revert IH. apply StronglySorted_on. intros t u Ht Hu.
    rewrite elem_of_firsts in Ht, Hu.
    rewrite !first_index_app_l by assumption. auto. }
  rewrite firsts_snoc. case_bool_decide as Hk; [assumption |].
  apply StronglySorted_app_2; [| assumption | repeat constructor].
  intros t u Ht Hu. apply list_elem_of_singleton in Hu as ->.
  rewrite elem_of_firsts in Ht, Hk.
  rewrite first_index_app_l, first_index_snoc_new by assumption.
  now apply first_index_lt.
Qed.

(** *** The counts, as the loops build them *)

(** Counting [k] once more in a table that lists the counts [c] of the
    distinct tags [l]. *)
Lemma bump_counts (k : string) (l : list string) (c : string -> nat) :
  NoDup l -> (k ∉ l -> c k = 0%nat) ->
  bump String.eqb k (map (fun t => (t, c t)) l) =
  map (fun t => (t, (c t + if String.eqb t k then 1 else 0)%nat))
      (if bool_decide (k ∈ l) then l else (l ++ [k])%list).
Proof.
  intros Hnd Hnew. induction Hnd as [|x l Hx Hnd IH]; simpl.
  - rewrite String.eqb_refl, Hnew by apply not_elem_of_nil. reflexivity.
  - destruct (String.eqb_spec x k) as [->|Hne].
    + rewrite bool_decide_eq_true_2 by left. simpl.
      rewrite String.eqb_refl. f_equal; [f_equal; lia |].
      apply map_ext_in. intros t Ht. apply list_elem_of_In in Ht.
      destruct (String.eqb_spec t k) as [->|]; [contradiction |].
      f_equal. lia.
    + rewrite IH by (intros Hk; apply Hnew; set_solver).
      case_bool_decide as Hk.
      * rewrite bool_decide_eq_true_2 by now right. simpl.
        destruct (String.eqb_spec x k); [congruence |].
        f_equal. f_equal. lia.
      * rewrite bool_decide_eq_false_2 by set_solver. simpl.
        destruct (String.eqb_spec x k); [congruence |].
        f_equal. f_equal. lia.
Qed.

Lemma tally_snoc (ts : list string) (k : string) :
  tally (ts ++ [k]) = bump String.eqb k (tally ts).
Proof. unfold tally. now rewrite foldl_snoc. Qed.

(** The table holds the distinct tags in first-seen order, each with the
    number of its occurrences. *)
Lemma tally_counts (ts : list string) :
  tally ts = map (fun t => (t, occurrences t ts)) (firsts ts).
Proof.
  induction ts as [|k ts IH] using rev_ind; [reflexivity |].
  rewrite tally_snoc, IH, bump_counts.
  - rewrite firsts_snoc. apply map_ext. intros t.
    now rewrite occurrences_snoc.
  - apply NoDup_firsts.
  - rewrite elem_of_firsts. apply occurrences_absent.
Qed.

(** *** From JSON keys to strings *)


Lemma bump_lift (t : string) (counts : list (string * nat)) :
  bump key_eqb (JStr t) (map lift counts) = map lift (bump String.eqb t counts).
Proof.
  induction counts as [|[k n] counts IH]; [reflexivity |].
  simpl. destruct (String.eqb k t); simpl; [reflexivity |].
  now rewrite IH.
Qed.

Lemma strings_spec (l : list json) (ts : list string) :
  strings l = Some ts -> l = map JStr ts.
Proof.
  revert ts. induction l as [|v l IH]; intros ts; simpl.
  - intros [= <-]. reflexivity.
  - destruct v; try discriminate.
    destruct (strings l) as [ss|]; [|discriminate].
    intros [= <-]. simpl. f_equal. now apply IH.
Qed.

Lemma foldM_count_tag_strings (ts : list string) (counts : list (string * nat)) :
  foldM count_tag (map JStr ts) (map lift counts) =
  Ok (map lift (foldl (fun d t => bump String.eqb t d) counts ts)).
Proof.
  revert counts. induction ts as [|t ts IH]; intros counts; [reflexivity |].
  simpl. rewrite bump_lift. apply IH.
Qed.

Lemma count_tags_typed (a : VibeAnalysis) (ts : list string)
    (counts : list (string * nat)) :
  str_tags a = Some ts ->
  count_tags (map lift counts) a =
  Ok (map lift (foldl (fun d t => bump String.eqb t d) counts ts)).
Proof.
  unfold count_tags, str_tags.
  destruct (vibe_tags a) as [| | | | |tags|]; try discriminate.
  intros ->%strings_spec. simpl. apply foldM_count_tag_strings.
Qed.

Lemma foldM_count_tags_typed (l : list VibeAnalysis) (counts : list (string * nat)) :
  Forall well_typed l ->
  foldM count_tags l (map lift counts) =
  Ok (map lift (foldl (fun d t => bump String.eqb t d) counts (all_tags l))).
Proof.
  intros Hl. revert counts. induction Hl as [|a l [ts Ha] Hl IH]; intros counts.
  - reflexivity.
  - unfold all_tags. cbn [foldM map concat].
    rewrite foldl_app, Ha, (count_tags_typed a ts counts Ha).
    apply IH.
Qed.

(** *** The stable sort by decreasing count *)

Section Sorting.
Context {K : Type} (before : relation K).

Lemma insert_by_count_perm (x : K * nat) (l : list (K * nat)) :
  insert_by_count x l ≡ₚ x :: l.
Proof.
  induction l as [|y l IH]; [reflexivity |].
  simpl. destruct (snd y <=? snd x)%nat; [reflexivity |].
  rewrite IH. apply Permutation_swap.
Qed.

Lemma insert_by_count_sorted (x : K * nat) (l : list (K * nat)) :
  StronglySorted (outranks before) l ->
  Forall (fun y => before (fst x) (fst y)) l ->
  StronglySorted (outranks before) (insert_by_count x l).
Proof.
  intros Hs. induction Hs as [|y l Hs IH Hy]; intros Hx.
  - repeat constructor.
  - apply Forall_cons in Hx as [Hxy Hx]. simpl.
    destruct (Nat.leb_spec (snd y) (snd x)) as [Hle|Hlt].
    + constructor; [now constructor |].
      assert (Hfirst : outranks before x y).
      { unfold outranks. destruct (decide (snd y = snd x)); [right | left]; auto with lia. }
      constructor; [assumption |].
      rewrite Forall_forall in *. intros z Hz.
      specialize (Hy z Hz). specialize (Hx z Hz).
      unfold outranks in *.
      destruct (decide (snd z = snd x)); [right | left]; [auto | lia].
    + constructor; [now apply IH |].
      rewrite insert_by_count_perm. constructor; [| assumption].
      left. assumption.
Qed.

Lemma sorted_by_count_perm (l : list (K * nat)) : sorted_by_count l ≡ₚ l.
Proof.
  induction l as [|x l IH]; [reflexivity |].
  unfold sorted_by_count in *. simpl. now rewrite insert_by_count_perm, IH.
Qed.

(** Entries listed in the order [before] come out ranked by count, ties
    in the order [before]. *)
Lemma sorted_by_count_sorted (l : list (K * nat)) :
  StronglySorted (fun x y => before (fst x) (fst y)) l ->
  StronglySorted (outranks before) (sorted_by_count l).
Proof.
  intros Hs. induction Hs as [|x l Hs IH Hx]; [constructor |].
  change (sorted_by_count (x :: l)) with (insert_by_count x (sorted_by_count l)).
  apply insert_by_count_sorted; [assumption |].
  now rewrite sorted_by_count_perm.
Qed.

End Sorting.

Lemma insert_by_count_lift (x : string * nat) (l : list (string * nat)) :
  insert_by_count (lift x) (map lift l) = map lift (insert_by_count x l).
Proof.
  induction l as [|y l IH]; [reflexivity |].
  simpl. destruct (snd y <=? snd x)%nat; [reflexivity |].
  simpl. now rewrite IH.
Qed.

Lemma sorted_by_count_lift (l : list (string * nat)) :
  sorted_by_count (map lift l) = map lift (sorted_by_count l).
Proof.
  induction l as [|x l IH]; [reflexivity |].
  unfold sorted_by_count in *. simpl. now rewrite IH, insert_by_count_lift.
Qed.

(** The ranking of the tags [ts]: its distinct tags sorted by count. *)
Lemma ranking_spec (ts : list string) :
  let ranked := map fst (sorted_by_count (tally ts)) in
  NoDup ranked /\ (forall t, t ∈ ranked <-> t ∈ ts) /\
  StronglySorted (ranks_before ts) ranked.
Proof.
  intros ranked.
  assert (Hperm : ranked ≡ₚ firsts ts).
  { unfold ranked. rewrite sorted_by_count_perm, tally_counts, map_map. simpl.
    now rewrite map_id. }
  split; [rewrite Hperm; apply NoDup_firsts |].
  split; [intros t; rewrite Hperm; apply elem_of_firsts |].
  unfold ranked.
  apply (StronglySorted_fmap fst (fun x y => ranks_before ts (fst x) (fst y))); [auto |].
  apply (StronglySorted_on
           (outranks (fun t u => (first_index t ts < first_index u ts)%nat))).
  - intros [t n] [u m] Ht Hu.
    rewrite sorted_by_count_perm, tally_counts in Ht, Hu.
    apply list_elem_of_fmap in Ht as (t' & [= -> ->] & _).
    apply list_elem_of_fmap in Hu as (u' & [= -> ->] & _).
    unfold outranks, ranks_before. simpl. tauto.
  - apply sorted_by_count_sorted. rewrite tally_counts.
    apply (StronglySorted_fmap (fun t => (t, occurrences t ts))
             (fun t u => (first_index t ts < first_index u ts)%nat)); [auto |].
    apply firsts_sorted.
Qed.

(** What the aggregator returns on records whose tags are lists of
    strings. *)
Lemma aggregate_typed (analyses : list VibeAnalysis) :
  Forall well_typed (contributing analyses) ->
  let ranked :=
    map fst (sorted_by_count (tally (all_tags (contributing analyses)))) in
  exists s,
    _aggregate_vibes analyses = Ok s /\
    top_vibe_tags s = match ranked with
                      | [] => [JStr "Unknown"]
                      | _ => map JStr (take 4 ranked)
                      end.
Proof.
  intros Htyped ranked. subst ranked.
  unfold _aggregate_vibes. fold (contributing analyses).
  destruct (contributing analyses) as [|a l] eqn:Hcontrib.
  - exists insufficient. split; reflexivity.
  - pose proof (foldM_count_tags_typed (a :: l) [] Htyped) as Hcounts.
    change (map lift []) with (@nil (json * nat)) in Hcounts.
    rewrite Hcounts.
    fold (tally (all_tags (a :: l))). cbn [mbind result_bind].
    eexists. split; [reflexivity |].
    cbn [top_vibe_tags].
    rewrite sorted_by_count_lift, map_map.
    change (fun x => fst (lift x)) with (fun x : string * nat => JStr (fst x)).
    rewrite <- (map_map fst JStr), <- (fmap_take JStr).
    destruct (map fst (sorted_by_count (tally (all_tags (a :: l)))));
      reflexivity.
Qed.

(** The ranking is determined by its description. *)
Lemma ranking_unique (ts r1 r2 : list string) :
  NoDup r1 -> NoDup r2 ->
  (forall t, t ∈ r1 <-> t ∈ ts) -> (forall t, t ∈ r2 <-> t ∈ ts) ->
  StronglySorted (ranks_before ts) r1 -> StronglySorted (ranks_before ts) r2 ->
  r1 = r2.
Proof.
  intros Hnd1 Hnd2 Hin1 Hin2 Hs1 Hs2.
  apply (StronglySorted_unique_strong (ranks_before ts)); try assumption.
  - intros t u _ _ Htu Hut. exfalso. unfold ranks_before in *. lia.
  - apply NoDup_Permutation; try assumption.
    intros t. now rewrite Hin1, Hin2.
Qed.

(** C6.  The top tags of the summary are the first four of the ranking of
    the contributing scores' tags: the distinct tags, the more frequent
    first and, among equally frequent ones, the one first seen earlier
    first; ["Unknown"] when there is no tag. *)
Theorem top_tags_are_the_most_frequent (analyses : list VibeAnalysis) :
  Forall well_typed (contributing analyses) ->
  let ts := all_tags (contributing analyses) in
  exists s ranked,
    _aggregate_vibes analyses = Ok s /\
    NoDup ranked /\ (forall t, t ∈ ranked <-> t ∈ ts) /\
    StronglySorted (ranks_before ts) ranked /\
    top_vibe_tags s = match ranked with
                      | [] => [JStr "Unknown"]
                      | _ => map JStr (take 4 ranked)
                      end.
Proof.
  intros Htyped ts.
  destruct (ranking_spec ts) as (Hnd & Hin & Hsorted).
  destruct (aggregate_typed analyses Htyped) as (s & Hs & Htop).
  exists s, (map fst (sorted_by_count (tally ts))).
  repeat split; try assumption; apply Hin.
Qed.

Lemma top_tags_are_the_most_frequent_witness :
  exists s ranked,
    _aggregate_vibes techno_night = Ok s /\
    NoDup ranked /\
    (forall t, t ∈ ranked <-> t ∈ all_tags (contributing techno_night)) /\
    StronglySorted (ranks_before (all_tags (contributing techno_night))) ranked /\
    top_vibe_tags s = match ranked with
                      | [] => [JStr "Unknown"]
                      | _ => map JStr (take 4 ranked)
                      end.
Proof.
  apply (top_tags_are_the_most_frequent techno_night).
  repeat constructor; eexists; reflexivity.
Defined.

(** The example of the specification, whatever the levels of the scores. *)
Example techno_dark_hype (e1 c1 e2 c2 e3 c3 : Z) :
  exists s,
    _aggregate_vibes
      [scored e1 c1 ["Techno"; "Dark"]; scored e2 c2 ["Techno"; "Hype"];
       scored e3 c3 ["Dark"]] = Ok s /\
    top_vibe_tags s = [JStr "Techno"; JStr "Dark"; JStr "Hype"].
Proof. eexists. split; reflexivity. Qed.

(** *** When the aggregator returns *)

Lemma count_tag_unfold (counts : list (json * nat)) (tag : json) :
  count_tag counts tag =
  if hashable tag then Ok (bump key_eqb tag counts)
  else Raise (Exn TypeError "unhashable type").
Proof. reflexivity. Qed.

Lemma count_tags_unfold (counts : list (json * nat)) (a : VibeAnalysis) :
  count_tags counts a =
  iter (vibe_tags a) ≫= fun tags => foldM count_tag tags counts.
Proof. reflexivity. Qed.

Lemma foldM_count_tag_ok (tags : list json) (counts : list (json * nat)) :
  forallb hashable tags = true ->
  exists counts', foldM count_tag tags counts = Ok counts'.
Proof.
  revert counts. induction tags as [|tag tags IH]; intros counts;
    cbn [foldM forallb].
  - eauto.
  - intros [Htag Htags]%andb_prop. rewrite count_tag_unfold, Htag.
    cbn [mbind result_bind]. now apply IH.
Qed.

Lemma foldM_count_tag_hashable (tags : list json) (counts counts' : list (json * nat)) :
  foldM count_tag tags counts = Ok counts' -> forallb hashable tags = true.
Proof.
  revert counts. induction tags as [|tag tags IH]; intros counts;
    cbn [foldM forallb].
  - reflexivity.
  - rewrite count_tag_unfold. destruct (hashable tag); [| discriminate].
    cbn [mbind result_bind andb]. apply IH.
Qed.

Lemma foldM_count_tags_ok (l : list VibeAnalysis) (counts : list (json * nat)) :
  Forall countable l <-> exists counts', foldM count_tags l counts = Ok counts'.
Proof.
  revert counts. induction l as [|a l IH]; intros counts.
  - split; [eauto | constructor].
  - cbn [foldM]. rewrite Forall_cons. split.
    + intros [(tags & Hiter & Hhash) Hl].
      destruct (foldM_count_tag_ok tags counts Hhash) as [counts1 H1].
      rewrite count_tags_unfold, Hiter. cbn [mbind result_bind].
      rewrite H1. cbn [mbind result_bind]. now apply IH.
    + intros [counts' H].
      rewrite count_tags_unfold in H.
      destruct (iter (vibe_tags a)) as [tags|e] eqn:Hiter; [| discriminate].
      cbn [mbind result_bind] in H.
      destruct (foldM count_tag tags counts) as [counts1|e] eqn:H1; [| discriminate].
      cbn [mbind result_bind] in H. split.
      * exists tags. split; [exact Hiter |].
        eapply foldM_count_tag_hashable; eassumption.
      * apply (IH counts1). eauto.
Qed.

(** The aggregator returns exactly when the tags of the contributing
    scores can be counted. *)
Lemma aggregate_returns_iff (analyses : list VibeAnalysis) :
  (exists s, _aggregate_vibes analyses = Ok s) <->
  Forall countable (contributing analyses).
Proof.
  unfold _aggregate_vibes. fold (contributing analyses).
  destruct (contributing analyses) as [|a l].
  - split; [constructor | eauto].
  - rewrite (foldM_count_tags_ok (a :: l) []). split.
    + intros [s Hs].
      destruct (foldM count_tags (a :: l) []) as [counts|e]; [eauto | discriminate].
    + intros [counts ->]. cbn [mbind result_bind]. eauto.
Qed.

Lemma well_typed_countable (a : VibeAnalysis) : well_typed a -> countable a.
Proof.
  intros [ts Hts]. unfold str_tags in Hts. unfold countable.
  destruct (vibe_tags a) as [| | | | |tags|]; try discriminate.
  apply strings_spec in Hts as ->. eexists. split; [reflexivity |].
  induction ts as [|t ts IH]; [reflexivity | exact IH].
Qed.

(** Past the early return, the fields of the summary other than the
    tags. *)
Lemma aggregate_fields (analyses : list VibeAnalysis) (s : summary) :
  contributing analyses <> [] -> _aggregate_vibes analyses = Ok s ->
  status s = classify (mean (map energy_level (contributing analyses)))
                      (mean (map crowd_level (contributing analyses))) /\
  avg_energy s =
    Float (round1 (float_value (quotient (map energy_level (contributing analyses))))) /\
  avg_crowd s =
    Float (round1 (float_value (quotient (map crowd_level (contributing analyses))))) /\
  sample_size s = length (contributing analyses).
Proof.
  unfold _aggregate_vibes. fold (contributing analyses).
  destruct (contributing analyses) as [|a l]; [congruence |].
  intros _. destruct (foldM count_tags (a :: l) []) as [counts|e]; [| discriminate].
  cbn [mbind result_bind]. intros [= <-]. repeat split.
Qed.

(** *** Status *)

Lemma ge_spec (x : Q) (t : Z) : ge x t = true <-> (inject_Z t <= x)%Q.
Proof. unfold ge. apply Qle_bool_iff. Qed.

(** The mean is the sum divided by the number of elements. *)
Lemma mean_spec (xs : list Z) :
  xs <> [] -> (mean xs * inject_Z (Z.of_nat (length xs)) == inject_Z (sum xs))%Q.
Proof.
  intros Hne. unfold mean, Qeq, Qmult, inject_Z. simpl.
  destruct xs as [|x xs]; [congruence |].
  rewrite Z.mul_1_r, Pos.mul_1_r.
  change (length (x :: xs)) with (S (length xs)).
  rewrite <- Pos.of_nat_succ, Zpos_P_of_succ_nat, <- Nat2Z.inj_succ. reflexivity.
Qed.

Lemma classify_cases (e c : Q) :
  ((7 <= e /\ 7 <= c)%Q -> classify e c = "LIVE") /\
  (~ (7 <= e /\ 7 <= c)%Q -> (5 <= e \/ 5 <= c)%Q -> classify e c = "warming_up") /\
  (~ (7 <= e /\ 7 <= c)%Q -> ~ (5 <= e \/ 5 <= c)%Q -> classify e c = "dead").
Proof.
  unfold classify.
  pose proof (ge_spec e 7) as He7. pose proof (ge_spec c 7) as Hc7.
  pose proof (ge_spec e 5) as He5. pose proof (ge_spec c 5) as Hc5.
  change (inject_Z 7) with 7%Q in *. change (inject_Z 5) with 5%Q in *.
  destruct (ge e 7), (ge c 7), (ge e 5), (ge c 5); simpl;
    repeat split; intros; try reflexivity; exfalso; intuition congruence.
Qed.

Lemma classify_values (e c : Q) :
  classify e c = "LIVE" \/ classify e c = "warming_up" \/ classify e c = "dead".
Proof.
  unfold classify.
  destruct (ge e 7 && ge c 7); [auto |].
  destruct (ge e 5 || ge c 5); auto.
Qed.

(** The comparison of a mean with a threshold does not depend on the
    rounding of the quotient to binary64.  [rnd] stands for that rounding,
    [t] for the threshold (5 or 7) and [gap] for the distance from [t]
    down to the next binary64 number ([2^-50] for both). *)
Section ExactComparison.
Variable rnd : Q -> Q.
Variables (t : Z) (gap : Q).
Hypothesis rnd_monotone : forall x y, (x <= y)%Q -> (rnd x <= rnd y)%Q.
Hypothesis rnd_threshold : (rnd (inject_Z t) == inject_Z t)%Q.
Hypothesis rnd_below : (rnd (inject_Z t - gap) == inject_Z t - gap)%Q.
Hypothesis gap_positive : (0 < gap)%Q.

Lemma ge_rounded_quotient (s : Z) (n : positive) :
  (gap * inject_Z (Z.pos n) <= 1)%Q ->
  ge (rnd (s # n)) t = ge (s # n) t.
Proof.
  intros Hgap. apply eq_true_iff_eq. rewrite !ge_spec. split.
  - intros Hrnd.
    destruct (Qlt_le_dec (s # n) (inject_Z t)) as [Hlt | Hle]; [| exact Hle].
    exfalso.
    assert (Hstep : ((s # n) + (1 # n) <= inject_Z t)%Q).
    { revert Hlt. unfold Qlt, Qle, Qplus, inject_Z; simpl; nia. }
    assert (Hsmall : (gap <= 1 # n)%Q).
    { revert Hgap. destruct gap as [gn gd].
      unfold Qle, Qmult, inject_Z; simpl; nia. }
    assert (Hq : (s # n <= inject_Z t - gap)%Q) by lra.
    apply rnd_monotone in Hq. rewrite rnd_below in Hq. lra.
  - intros Hle. apply rnd_monotone in Hle. now rewrite rnd_threshold in Hle.
Qed.

End ExactComparison.

(** The binary64 numbers just below 5 and 7. *)
Example below_thresholds :
  (float_value (SFpred prec emax (float_of_Z 5)) == 5 - (1 # 2 ^ 50))%Q /\
  (float_value (SFpred prec emax (float_of_Z 7)) == 7 - (1 # 2 ^ 50))%Q.
Proof. split; reflexivity. Qed.

(** C1.  For a non-empty list of contributing scores (whose tags can be
    counted, so that the aggregator returns) the status is LIVE when the
    mean energy and the mean crowd are both at least 7, otherwise
    warming_up when one of them is at least 5, otherwise dead; so means
    (8, 7.5) give LIVE, (6, 3) warming_up and (3, 2) dead. *)
Theorem status_classification (analyses : list VibeAnalysis) :
  contributing analyses <> [] -> Forall countable (contributing analyses) ->
  let e := mean (map energy_level (contributing analyses)) in
  let c := mean (map crowd_level (contributing analyses)) in
  exists s,
    _aggregate_vibes analyses = Ok s /\
    ((7 <= e /\ 7 <= c)%Q -> status s = "LIVE") /\
    (~ (7 <= e /\ 7 <= c)%Q -> (5 <= e \/ 5 <= c)%Q -> status s = "warming_up") /\
    (~ (7 <= e /\ 7 <= c)%Q -> ~ (5 <= e \/ 5 <= c)%Q -> status s = "dead") /\
    ((e == 8)%Q -> (c == 7.5)%Q -> status s = "LIVE") /\
    ((e == 6)%Q -> (c == 3)%Q -> status s = "warming_up") /\
    ((e == 3)%Q -> (c == 2)%Q -> status s = "dead").
Proof.
  intros Hne Hcount e c.
  apply aggregate_returns_iff in Hcount as [s Hs].
  exists s. split; [exact Hs |].
  destruct (aggregate_fields analyses s Hne Hs) as (-> & _). fold e c.
  destruct (classify_cases e c) as (Hlive & Hwarm & Hdead).
  repeat split; try assumption.
  - intros He Hc. apply Hlive. rewrite He, Hc. split; discriminate.
  - intros He Hc. apply Hwarm; rewrite He, Hc.
    + intros [_ H]. now apply H.
    + left. discriminate.
  - intros He Hc. apply Hdead; rewrite He, Hc.
    + intros [H _]. now apply H.
    + intros [H | H]; now apply H.
Qed.

Lemma status_classification_witness :
  exists s, _aggregate_vibes live_night = Ok s /\ status s = "LIVE".
Proof.
  destruct (status_classification live_night) as (s & Hs & _ & _ & _ & Hlive & _).
  - discriminate.
  - repeat constructor; eexists; split; reflexivity.
  - exists s. split; [exact Hs |]. apply Hlive; reflexivity.
Defined.

Example six_three_warming_up :
  exists s, _aggregate_vibes [scored 7 2 []; scored 5 4 []] = Ok s /\
    status s = "warming_up".
Proof. eexists. split; reflexivity. Qed.

Example three_two_dead :
  exists s, _aggregate_vibes [scored 4 1 []; scored 2 3 []] = Ok s /\
    status s = "dead".
Proof. eexists. split; reflexivity. Qed.

(** *** Insufficient data *)

Lemma contributing_nil (analyses : list VibeAnalysis) :
  contributing analyses = [] <->
  Forall (fun a => ~ (success a = true /\ flt f0_3 (confidence a) = true)) analyses.
Proof.
  unfold contributing. induction analyses as [|a l IH]; simpl.
  - split; [constructor | reflexivity].
  - rewrite Forall_cons, <- IH. unfold contributes at 1.
    destruct (success a), (flt f0_3 (confidence a)); simpl;
      intuition (congruence || discriminate).
Qed.

Lemma aggregate_nil (analyses : list VibeAnalysis) :
  contributing analyses = [] -> _aggregate_vibes analyses = Ok insufficient.
Proof. unfold _aggregate_vibes. fold (contributing analyses). now intros ->. Qed.

(** Past the early return, the summary counts at least one score and its
    status is one of the three classes. *)
Lemma aggregate_sufficient (analyses : list VibeAnalysis) (s : summary) :
  _aggregate_vibes analyses = Ok s ->
  sample_size s = 0%nat \/ status s = "insufficient_data" ->
  contributing analyses = [].
Proof.
  intros Hs Hwhich.
  destruct (contributing analyses) as [|a l] eqn:Hc; [reflexivity |].
  exfalso.
  assert (Hne : contributing analyses <> []) by (rewrite Hc; discriminate).
  destruct (aggregate_fields analyses s Hne Hs) as (Hstatus & _ & _ & Hsize).
  destruct Hwhich as [H0 | Hins].
  - rewrite Hsize, Hc in H0. discriminate.
  - rewrite Hstatus in Hins.
    match type of Hins with
    | classify ?e ?c = _ =>
        destruct (classify_values e c) as [H | [H | H]]; rewrite H in Hins;
        discriminate
    end.
Qed.

(** C5.  The summary is the insufficient-data one (averages 5 and 5, tags
    ["Unknown"], sample size 0) exactly when no score of the list has
    success set and a confidence above 0.3; so it is for the empty list
    and for a list of failed or low-confidence scores, and a score whose
    confidence is 0.3 itself does not contribute. *)
Theorem insufficient_data_iff (analyses : list VibeAnalysis) :
  (_aggregate_vibes analyses =
     Ok {| avg_energy := Int 5; avg_crowd := Int 5;
           top_vibe_tags := [JStr "Unknown"];
           status := "insufficient_data"; sample_size := 0 |}
   <-> Forall (fun a => ~ (success a = true /\ flt f0_3 (confidence a) = true))
         analyses) /\
  (forall s, _aggregate_vibes analyses = Ok s ->
     (status s = "insufficient_data" <-> contributing analyses = []) /\
     (sample_size s = 0%nat <-> contributing analyses = [])) /\
  _aggregate_vibes [] = Ok insufficient /\
  (forall a, confidence a = f0_3 -> contributes a = false) /\
  (forall a, success a = false -> contributes a = false).
Proof.
  split; [| split; [| split; [| split]]].
  - rewrite <- contributing_nil. split.
    + intros Hs. apply (aggregate_sufficient analyses _ Hs). now left.
    + apply aggregate_nil.
  - intros s Hs. split; split.
    + intros Hstatus. apply (aggregate_sufficient analyses s Hs). now right.
    + intros Hc. rewrite (aggregate_nil analyses Hc) in Hs. now inversion Hs.
    + intros Hsize. apply (aggregate_sufficient analyses s Hs). now left.
    + intros Hc. rewrite (aggregate_nil analyses Hc) in Hs. now inversion Hs.
  - reflexivity.
  - unfold contributes. intros a ->. apply andb_false_r.
  - unfold contributes. intros a ->. reflexivity.
Qed.

(** *** Rounding *)

(** C10.  The status is computed from the means as they are, the averages
    of the summary are the quotients rounded to one decimal; so a summary
    can show an energy of 7.0 and a crowd of 8.0 with the status
    warming_up: 25 scores whose energies average 6.96 do. *)
Theorem status_ignores_rounding :
  (forall analyses s,
     contributing analyses <> [] -> _aggregate_vibes analyses = Ok s ->
     let energies := map energy_level (contributing analyses) in
     let crowds := map crowd_level (contributing analyses) in
     status s = classify (mean energies) (mean crowds) /\
     avg_energy s = Float (round1 (float_value (quotient energies))) /\
     avg_crowd s = Float (round1 (float_value (quotient crowds)))) /\
  (exists s,
     _aggregate_vibes almost_live = Ok s /\
     (mean (map energy_level (contributing almost_live)) == 6.96)%Q /\
     (number_value (avg_energy s) == 7.0)%Q /\
     (7 <= number_value (avg_crowd s))%Q /\
     status s = "warming_up").
Proof.
  split.
  - intros analyses s Hne Hs energies crowds.
    destruct (aggregate_fields analyses s Hne Hs) as (Hstatus & He & Hc & _).
    auto.
  - eexists. split; [vm_compute; reflexivity |].
    repeat split; vm_compute; congruence.
Qed.

(** The comparisons of this example on the binary64 quotient itself:
    174 / 25 is below 7 and at least 5. *)
Example almost_live_binary64 :
  quotient (map energy_level (contributing almost_live)) = true_div 174 25 /\
  flt (true_div 174 25) (float_of_Z 7) = true /\
  fle (float_of_Z 5) (true_div 174 25) = true.
Proof. repeat split. Qed.

(** An exact mean on a decimal tie that binary64 does not hold: the
    quotient 127 / 20 lies below 6.35 and rounds to 6.3. *)
Example tie_follows_binary64 :
  let levels := (replicate 13 6%Z ++ replicate 7 7%Z)%list in
  (mean levels == 6.35)%Q /\
  quotient levels = true_div 127 20 /\
  (round1 (float_value (true_div 127 20)) == 6.3)%Q.
Proof. repeat split. Qed.

End AggregatorProps.

(** ** The pipeline *)

Module PipelineProps.
Import Py Scout.

(** The batch returns one record per URL, in the order of the URLs. *)
Lemma analyze_batch_total (w : world) (urls : list string) :
  exists analyses,
    analyze_batch w urls = Ok analyses /\
    Forall2 (fun url a => analyze_image w url = Ok a) urls analyses.
Proof.
  induction urls as [|url urls (rest & Hrest & Hall)]; simpl.
  - exists []. split; [reflexivity | constructor].
  - destruct (AnalyzerProps.analyze_image_total w url) as [a Ha].
    exists (a :: rest). rewrite Ha, Hrest. split; [reflexivity |].
    now constructor.
Qed.

Lemma join_strings (sep : string) (ts : list string) :
  exists joined, join sep (map JStr ts) = Ok joined.
Proof.
  induction ts as [|t ts [joined IH]]; simpl; [eauto |].
  destruct ts as [|u ts]; [eauto |].
  simpl in *. rewrite IH. eauto.
Qed.

(** No thumbnail at all: the report has no summary. *)
Example report_without_thumbnails :
  scout_location terse 3 (Scraper.loads bare_post) Scraper.club_url 10 true =
  Ok (Report Scraper.club_url (Some "Club") 1
        [{| Scraper.url := "https://www.instagram.com/p/Cabc/";
            Scraper.thumbnail_url := "";
            Scraper.media_type := "image";
            Scraper.shortcode := "Cabc" |}]
        [] None).
Proof. reflexivity. Qed.

(** C9.  When the scrape succeeds with at least one item and analysis is
    on, the pipeline analyzes the thumbnails of the items that have one,
    in a batch, aggregates the batch and, the tags of the contributing
    scores being lists of strings, returns a report with the items, the
    analyses and the summary.  When no item has a thumbnail, neither the
    batch nor the aggregator runs and the report has no summary. *)
Theorem analysis_report (w : world) (max_retries : Z)
    (env : Z -> Scraper.attempt_env) (location_url : string) (max_posts : Z) :
  let r := fst (Scraper.scrape_location max_retries env location_url max_posts) in
  let items := Scraper.media_items r in
  Scraper.success r = true -> items <> [] ->
  (thumbnails items <> [] ->
   exists analyses,
     analyze_batch w (thumbnails items) = Ok analyses /\
     (Forall well_typed (contributing analyses) ->
      exists s,
        _aggregate_vibes analyses = Ok s /\
        scout_location w max_retries env location_url max_posts true =
          Ok (Report location_url (Scraper.location_name r) (length items) items
                analyses (Some s)))) /\
  (thumbnails items = [] ->
   scout_location w max_retries env location_url max_posts true =
     Ok (Report location_url (Scraper.location_name r) (length items) items
           [] None)).
Proof.
  intros r items Hok Hitems. unfold scout_location. fold r. fold items.
  rewrite Hok. cbn [negb].
  destruct items as [|item items'] eqn:Hi; [congruence |].
  split.
  - intros Hthumbs.
    destruct (analyze_batch_total w (thumbnails (item :: items')))
      as (analyses & Hbatch & Hall).
    exists analyses. split; [exact Hbatch |]. intros Htyped.
    destruct (AggregatorProps.aggregate_typed analyses Htyped)
      as (s & Hs & Htop).
    exists s. split; [exact Hs |].
    destruct (thumbnails (item :: items')) as [|u us]; [congruence |].
    rewrite Hbatch. cbn [mbind result_bind].
    destruct analyses as [|a rest]; [inversion Hall |].
    rewrite Hs. cbn [mbind result_bind]. rewrite Htop.
    match goal with
    | |- context [join _ (match ?ranked with [] => _ | _ => _ end)] =>
        destruct (join_strings ", " (take 4 ranked)) as [joined Hjoin];
        destruct ranked as [|t ranked']; [| rewrite Hjoin]; reflexivity
    end.
  - intros ->. reflexivity.
Qed.

Lemma analysis_report_witness :
  exists analyses s,
    analyze_batch terse (thumbnails
      (Scraper.media_items (fst (Scraper.scrape_location 3 (Scraper.loads Scraper.grid)
                                   Scraper.club_url 2)))) = Ok analyses /\
    _aggregate_vibes analyses = Ok s /\
    exists name count items,
      scout_location terse 3 (Scraper.loads Scraper.grid) Scraper.club_url 2 true =
        Ok (Report Scraper.club_url name count items analyses (Some s)).
Proof.
  destruct (analysis_report terse 3 (Scraper.loads Scraper.grid) Scraper.club_url 2)
    as [Hsome _]; [reflexivity | discriminate |].
  destruct Hsome as (analyses & Hbatch & Hreport); [discriminate |].
  exists analyses.
  destruct Hreport as (s & Hs & Hr).
  - vm_compute in Hbatch. injection Hbatch as <-.
    repeat constructor; eexists; reflexivity.
  - exists s. repeat split; [exact Hbatch | exact Hs |]. eauto.
Defined.

End PipelineProps.

(** ** Shortcodes *)

Module ShortcodeProps.
Import Py Scraper ScrapeTerms.

Lemma app_cons (c : ascii) (a b : string) : String c a ++ b = String c (a ++ b).
Proof. reflexivity. Qed.

Lemma startswith_app (p s : string) : startswith p (p ++ s) = true.
Proof. unfold startswith. induction p as [|c p IH]; simpl.
  - now destruct s.
  - rewrite IH. now destruct (ascii_dec c c).
Qed.

Lemma startswith_split (p s : string) :
  startswith p s = true -> exists rest, s = p ++ rest.
Proof.
  unfold startswith. revert s. induction p as [|c p IH]; intros s H.
  - exists s. reflexivity.
  - destruct s as [|d s]; [discriminate |]. simpl in H.
    destruct (ascii_dec c d) as [->|]; [| discriminate].
    destruct (IH s H) as [rest ->]. exists rest. reflexivity.
Qed.

Lemma take_while_split (p : ascii -> bool) (s : string) :
  exists post, s = take_while p s ++ post /\ all_chars p (take_while p s) = true /\
               stops p post = true.
Proof.
  induction s as [|c s (post & Hs & Hall & Hstop)]; simpl.
  - exists "". auto.
  - destruct (p c) eqn:Hc.
    + exists post. simpl. rewrite Hc, Hall. repeat split; [| assumption].
      rewrite app_cons. now f_equal.
    + exists (String c s). simpl. rewrite Hc. auto.
Qed.

Lemma take_while_app (p : ascii -> bool) (code post : string) :
  all_chars p code = true -> stops p post = true ->
  take_while p (code ++ post) = code.
Proof.
  intros Hall Hstop. induction code as [|c code IH]; simpl in *.
  - destruct post as [|d post]; [reflexivity |]. simpl in *.
    now destruct (p d).
  - apply andb_prop in Hall as [-> Hall]. now rewrite IH.
Qed.

Lemma drop_str_app3 (s : string) : drop_str 3 ("/p/" ++ s) = s.
Proof. reflexivity. Qed.

Lemma search_shortcode_found (href code : string) :
  search_shortcode href = Some code ->
  code <> "" /\ all_chars is_shortcode_char code = true /\
  exists pre post,
    href = pre ++ "/p/" ++ code ++ post /\ stops is_shortcode_char post = true.
Proof.
  induction href as [|c href IH]; [discriminate |].
  cbn [search_shortcode].
  assert (Hlater : search_shortcode href = Some code ->
            code <> "" /\ all_chars is_shortcode_char code = true /\
            exists pre post,
              String c href = pre ++ "/p/" ++ code ++ post /\
              stops is_shortcode_char post = true).
  { intros H. destruct (IH H) as (Hne & Hcode & pre & post' & -> & Hpost).
    repeat split; try assumption.
    exists (String c pre), post'. split; [reflexivity | assumption]. }
  destruct (startswith "/p/" (String c href)) eqn:Hp; [| exact Hlater].
  apply startswith_split in Hp as [rest Hrest].
  assert (Hdrop : drop_str 3 (String c href) = rest) by now rewrite Hrest.
  rewrite Hdrop.
  destruct (take_while_split is_shortcode_char rest) as (post & Hsplit & Hall & Hstop).
  destruct (take_while is_shortcode_char rest) as [|d run] eqn:Hrun; [exact Hlater |].
  intros [= <-]. repeat split; [discriminate | assumption |].
  exists "", post. split; [| assumption].
  rewrite Hrest. simpl. now rewrite <- Hsplit.
Qed.

(** X1.  What [search_shortcode] finds is a shortcode of the link: a non-empty
    run of shortcode characters that follows "/p/" and ends where the run
    ends. *)
Theorem search_shortcode_sound (href code : string) :
  search_shortcode href = Some code ->
  code <> "" /\ all_chars is_shortcode_char code = true /\
  exists pre post,
    href = pre ++ "/p/" ++ code ++ post /\ stops is_shortcode_char post = true.
Proof. apply search_shortcode_found. Qed.

Lemma search_shortcode_sound_witness :
  "Cabc" <> "" /\ all_chars is_shortcode_char "Cabc" = true /\
  exists pre post,
    "https://www.instagram.com/p/Cabc/?hl=en" = pre ++ "/p/" ++ "Cabc" ++ post /\
    stops is_shortcode_char post = true.
Proof.
  apply (search_shortcode_sound "https://www.instagram.com/p/Cabc/?hl=en" "Cabc").
  reflexivity.
Defined.

(** X2.  No shortcode is found exactly when no "/p/" of the link is followed by
    a shortcode character. *)
Lemma search_shortcode_none (href : string) :
  search_shortcode href = None <->
  forall pre c post,
    href = pre ++ "/p/" ++ String c post -> is_shortcode_char c = false.
Proof.
  induction href as [|a href IH].
  - split; [| reflexivity]. intros _ pre c post H.
    destruct pre; discriminate.
  - cbn [search_shortcode]. split.
    + intros H pre c post Heq.
      destruct pre as [|b pre].
      * change ("" ++ "/p/" ++ String c post) with ("/p/" ++ String c post) in Heq.
        assert (Hp : startswith "/p/" (String a href) = true)
          by (rewrite Heq; apply startswith_app).
        assert (Hdrop : drop_str 3 (String a href) = String c post)
          by now rewrite Heq.
        rewrite Hp, Hdrop in H. cbn [take_while] in H.
        destruct (is_shortcode_char c); [discriminate | reflexivity].
      * injection Heq as -> Heq.
        assert (Hrest : search_shortcode href = None).
        { destruct (startswith "/p/" (String b href)); [| assumption].
          destruct (take_while _ _); [assumption | discriminate]. }
        apply (proj1 IH Hrest pre c post Heq).
    + intros H.
      assert (Hrest : search_shortcode href = None).
      { apply IH. intros pre c post ->. apply (H (String a pre) c post). reflexivity. }
      destruct (startswith "/p/" (String a href)) eqn:Hp; [| assumption].
      apply startswith_split in Hp as [rest Hrest'].
      assert (Hdrop : drop_str 3 (String a href) = rest) by now rewrite Hrest'.
      rewrite Hdrop.
      destruct rest as [|c rest]; [assumption |]. cbn [take_while].
      rewrite (H "" c rest) by exact Hrest'. assumption.
Qed.

Lemma search_shortcode_here (code post : string) :
  code <> "" -> all_chars is_shortcode_char code = true ->
  stops is_shortcode_char post = true ->
  search_shortcode ("/p/" ++ code ++ post) = Some code.
Proof.
  intros Hne Hall Hstop.
  change ("/p/" ++ code ++ post)
    with (String "/" (String "p" (String "/" (code ++ post)))).
  cbn [search_shortcode].
  rewrite (startswith_app "/p/" (code ++ post) : startswith "/p/"
             (String "/" (String "p" (String "/" (code ++ post)))) = true).
  cbn [drop_str]. rewrite take_while_app by assumption.
  destruct code; [congruence | reflexivity].
Qed.

Lemma search_shortcode_skip (c : ascii) (s : string) :
  startswith "/p/" (String c s) = false ->
  search_shortcode (String c s) = search_shortcode s.
Proof. intros H. cbn [search_shortcode]. now rewrite H. Qed.

(** The URL built from a shortcode is read back to that shortcode. *)
Lemma search_post_url (code : string) :
  code <> "" -> all_chars is_shortcode_char code = true ->
  search_shortcode (post_url code) = Some code.
Proof.
  intros Hne Hall. unfold post_url.
  change ("https://www.instagram.com/p/" ++ code ++ "/")
    with ("https://www.instagram.com" ++ ("/p/" ++ code ++ "/")).
  cbn [append].
  repeat (rewrite search_shortcode_skip by reflexivity).
  now apply search_shortcode_here.
Qed.

End ShortcodeProps.

(** ** Extraction of the media items *)

Module ExtractionProps.
Import Py Scraper ScrapeTerms ShortcodeProps.

(** The item a turn of the loop appends. *)
Lemma examine_item (l : link) (seen seen' : gset string) (it : MediaItem) :
  examine l seen = (seen', Some it) ->
  link_shortcode l = Some (shortcode it) /\
  url it = post_url (shortcode it) /\
  (media_type it = "image" \/ media_type it = "video") /\
  answers l = true.
Proof.
  unfold examine, link_shortcode, answers.
  destruct (href l) as [[h|]|e]; try discriminate.
  destruct h as [|c h]; [discriminate |].
  destruct (search_shortcode (String c h)) as [code|]; [| discriminate].
  case_bool_decide; [discriminate |].
  destruct (img_src l) as [img|e], (video_indicator l) as [video|e'];
    try discriminate.
  intros [= _ <-]. cbn. repeat split. destruct video; auto.
Qed.

Lemma extract_loop_Forall (P : MediaItem -> Prop) (max_items : Z) (links : list link) :
  (forall l seen seen' it, examine l seen = (seen', Some it) -> P it) ->
  forall seen media_items,
    Forall P media_items -> Forall P (extract_loop max_items links seen media_items).
Proof.
  intros Hex. induction links as [|l links IH]; intros seen items Hitems;
    cbn [extract_loop]; [assumption |].
  destruct (max_items <=? Z.of_nat (length items)); [assumption |].
  destruct (examine l seen) as [seen' [it|]] eqn:Hl; apply IH.
  - apply Forall_app. split; [assumption |]. repeat constructor. eauto.
  - cbn. now rewrite app_nil_r.
Qed.

(** X3.  Every extracted item carries a shortcode of the character class, the
    post URL built from it, from which the same pattern reads the shortcode
    back, and one of the two media types. *)
Theorem extracted_items_well_formed (links : result (list link)) (max_items : Z)
    (items : list MediaItem) :
  _extract_media_from_page links max_items = Ok items ->
  Forall (fun it =>
            shortcode it <> "" /\
            all_chars is_shortcode_char (shortcode it) = true /\
            url it = post_url (shortcode it) /\
            search_shortcode (url it) = Some (shortcode it) /\
            (media_type it = "image" \/ media_type it = "video")) items.
Proof.
  unfold _extract_media_from_page. destruct links as [ls|e]; [| discriminate].
  cbn [mbind result_bind]. intros [= <-].
  apply extract_loop_Forall; [| constructor].
  intros l seen seen' it Hl.
  apply examine_item in Hl as (Hcode & Hurl & Htype & _).
  unfold link_shortcode in Hcode.
  destruct (href l) as [[h|]|e]; try discriminate.
  apply search_shortcode_found in Hcode as (Hne & Hall & _).
  repeat split; try assumption.
  rewrite Hurl. now apply search_post_url.
Qed.

Lemma extracted_items_well_formed_witness :
  exists items,
    _extract_media_from_page (Ok grid) 2 = Ok items /\
    Forall (fun it =>
              shortcode it <> "" /\
              all_chars is_shortcode_char (shortcode it) = true /\
              url it = post_url (shortcode it) /\
              search_shortcode (url it) = Some (shortcode it) /\
              (media_type it = "image" \/ media_type it = "video")) items.
Proof.
  eexists. split; [reflexivity |].
  apply (extracted_items_well_formed (Ok grid) 2). reflexivity.
Defined.

(** *** Pages whose links all answer *)

Lemma examine_answers (l : link) (seen : gset string) :
  answers l = true ->
  match link_shortcode l with
  | None => examine l seen = (seen, None)
  | Some code =>
      if bool_decide (code ∈ seen) then examine l seen = (seen, None)
      else exists it, examine l seen = ({[code]} ∪ seen, Some it) /\
                      shortcode it = code
  end.
Proof.
  unfold answers, examine, link_shortcode.
  destruct (href l) as [[h|]|e]; try reflexivity.
  destruct h as [|c h]; [reflexivity |].
  destruct (search_shortcode (String c h)) as [code|]; [| reflexivity].
  case_bool_decide; [reflexivity |].
  destruct (img_src l) as [img|e], (video_indicator l) as [video|e'];
    try discriminate.
  intros _. eexists. split; reflexivity.
Qed.

(** The list of first occurrences, continued from [seen]. *)
Lemma firsts_from_prefix (ts seen : list string) :
  exists more,
    foldl (fun seen t => if bool_decide (t ∈ seen) then seen else (seen ++ [t])%list)
      seen ts = (seen ++ more)%list.
Proof.
  revert seen. induction ts as [|t ts IH]; intros seen; cbn [foldl].
  - exists []. now rewrite app_nil_r.
  - case_bool_decide.
    + apply IH.
    + destruct (IH (seen ++ [t])%list) as [more ->].
      exists (t :: more). now rewrite <- app_assoc.
Qed.

Lemma extract_loop_answers (max_items : Z) (links : list link) :
  Forall (fun l => answers l = true) links ->
  forall (seen : gset string) (media_items : list MediaItem),
    (forall code, code ∈ seen <-> code ∈ map shortcode media_items) ->
    Z.of_nat (length media_items) <= max_items ->
    map shortcode (extract_loop max_items links seen media_items) =
    take (Z.to_nat max_items)
      (foldl (fun seen t => if bool_decide (t ∈ seen) then seen else (seen ++ [t])%list)
         (map shortcode media_items) (omap link_shortcode links)).
Proof.
  induction 1 as [|l links Hl Hlinks IH]; intros seen items Hseen Hlen.
  - cbn. rewrite take_ge; [reflexivity |]. rewrite length_map. lia.
  - cbn [extract_loop].
    destruct (Z.leb_spec max_items (Z.of_nat (length items))) as [Hfull|Hroom].
    + destruct (firsts_from_prefix (omap link_shortcode (l :: links))
                  (map shortcode items)) as [more ->].
      rewrite take_app_le by (rewrite length_map; lia).
      rewrite take_ge; [reflexivity |]. rewrite length_map. lia.
    + pose proof (examine_answers l seen Hl) as Hex. cbn [omap list_omap].
      destruct (link_shortcode l) as [code|].
      * cbn [foldl]. destruct (decide (code ∈ seen)) as [Hin|Hin].
        -- rewrite bool_decide_true in Hex by assumption.
           rewrite Hex. cbn [option_list]. rewrite app_nil_r.
           rewrite bool_decide_true by now apply Hseen.
           now apply IH.
        -- rewrite bool_decide_false in Hex by assumption.
           destruct Hex as (it & -> & Hcode). cbn [option_list].
           rewrite bool_decide_false by now rewrite <- Hseen.
           rewrite (IH ({[code]} ∪ seen) (items ++ [it])%list).
           ++ rewrite map_app. cbn [map]. now rewrite Hcode.
           ++ intros c. rewrite map_app, elem_of_app, <- Hseen. cbn [map].
              rewrite Hcode. set_solver.
           ++ rewrite length_app. cbn. lia.
      * rewrite Hex. cbn [option_list]. rewrite app_nil_r. now apply IH.
Qed.

(** X4.  On a page whose examined links all answer their queries, the items are
    the first [max_items] distinct shortcodes of the first [2 * max_items]
    links, in the order they are first seen: nothing else is dropped. *)
Theorem answering_page_extraction (links : list link) (max_items : Z) :
  0 <= max_items ->
  let examined := take (Z.to_nat (2 * max_items)) links in
  Forall (fun l => answers l = true) examined ->
  exists items,
    _extract_media_from_page (Ok links) max_items = Ok items /\
    map shortcode items =
      take (Z.to_nat max_items) (Scout.firsts (omap link_shortcode examined)).
Proof.
  intros Hmax examined Hanswers.
  eexists. split; [reflexivity |].
  unfold slice_to. destruct (Z.leb_spec 0 (max_items * 2)); [| lia].
  rewrite Z.mul_comm. fold examined.
  apply (extract_loop_answers max_items examined Hanswers ∅ []).
  - intros code. cbn. set_solver.
  - cbn. lia.
Qed.

Lemma answering_page_extraction_witness :
  exists items,
    _extract_media_from_page (Ok grid) 3 = Ok items /\
    map shortcode items = ["Cabc"; "Cdef"; "Cghi"].
Proof.
  apply (answering_page_extraction grid 3); [lia |].
  repeat constructor.
Defined.

(** *** A query that raises *)

(** X5.  A link whose shortcode is new and whose image or video query raises
    gives no item, and the shortcode counts as seen: the post is in no
    item, even when a later link shows it again. *)
Theorem failed_query_loses_post (l : link) (rest : list link) (code : string)
    (max_items : Z) (items : list MediaItem) :
  link_shortcode l = Some code -> answers l = false ->
  _extract_media_from_page (Ok (l :: rest)) max_items = Ok items ->
  code ∉ map shortcode items.
Proof.
  intros Hcode Hfail. unfold _extract_media_from_page. cbn [mbind result_bind].
  intros [= <-].
  destruct (slice_to (max_items * 2) (l :: rest)) as [|l' links] eqn:Hslice;
    [cbn; set_solver |].
  assert (l' = l) as ->.
  { unfold slice_to in Hslice.
    destruct (0 <=? max_items * 2).
    - destruct (Z.to_nat (max_items * 2)); cbn in Hslice; congruence.
    - destruct (length (l :: rest) - Z.to_nat (- (max_items * 2)))%nat;
        cbn in Hslice; congruence. }
  cbn [extract_loop length]. change (Z.of_nat 0) with 0.
  destruct (Z.leb_spec max_items 0) as [|Hpos]; [cbn; set_solver |].
  assert (Hex : examine l ∅ = ({[code]} ∪ ∅, None)).
  { unfold examine. unfold link_shortcode in Hcode. unfold answers in Hfail.
    destruct (href l) as [[h|]|e]; try discriminate.
    destruct h as [|c h]; [discriminate |]. rewrite Hcode.
    rewrite bool_decide_false by set_solver.
    destruct (img_src l), (video_indicator l); try discriminate; reflexivity. }
  rewrite Hex. cbn [option_list option_rect app].
  destruct (ScraperProps.extract_loop_spec max_items links ({[code]} ∪ ∅) [])
    as (new & -> & _ & _ & Hnew & _); [cbn; lia |].
  cbn [app]. intros Hin. apply list_elem_of_fmap in Hin as (it & -> & Hit).
  apply (Hnew it Hit). set_solver.
Qed.

Lemma failed_query_loses_post_witness :
  exists items,
    _extract_media_from_page (Ok (broken_post "/p/Cabc/" :: grid)) 5 = Ok items /\
    "Cabc" ∉ map shortcode items.
Proof.
  eexists. split; [reflexivity |].
  apply (failed_query_loses_post (broken_post "/p/Cabc/") grid "Cabc" 5);
    reflexivity.
Defined.

End ExtractionProps.

(** ** The retry loop *)

Module RetryProps.
Import Py Scraper ScrapeTerms.

Section Retries.
Context (max_retries : Z) (env : Z -> attempt_env).
Context (target : string) (max_items : Z).

(** How an iteration ends, by the outcome of its attempt. *)
Lemma one_attempt_outcome (attempt : Z) (st : state) :
  fst (one_attempt max_retries env target max_items attempt st) =
  match outcome max_items (env attempt) with
  | Loaded name items => Return (loaded target name items)
  | Limited => Continue
  | Failed msg =>
      if attempt =? max_retries - 1 then Return (failure target msg)
      else Continue
  end.
Proof.
  unfold one_attempt, outcome, on_exception.
  destruct (env attempt) as [e | [[response p] | e]].
  - destruct (attempt =? max_retries - 1); reflexivity.
  - case_bool_decide; [reflexivity |].
    destruct (read_page response p max_items) as [[name items] | e];
      [reflexivity |].
    destruct (attempt =? max_retries - 1); reflexivity.
  - destruct (attempt =? max_retries - 1); reflexivity.
Qed.

Lemma attempts_unfold (remaining : nat) (attempt : Z) (st : state) :
  attempts max_retries env target max_items (S remaining) attempt st =
  match one_attempt max_retries env target max_items attempt st with
  | (Return r, st) => (r, st)
  | (Continue, st) =>
      attempts max_retries env target max_items remaining (attempt + 1) st
  end.
Proof. reflexivity. Qed.

Lemma attempts_first_loaded (name : option string) (items : list MediaItem) (k : nat) :
  forall (remaining : nat) (attempt : Z) (st : state),
    (k < remaining)%nat -> attempt + Z.of_nat remaining <= max_retries ->
    outcome max_items (env (attempt + Z.of_nat k)) = Loaded name items ->
    (forall j, attempt <= j < attempt + Z.of_nat k ->
       is_loaded (outcome max_items (env j)) = false) ->
    fst (attempts max_retries env target max_items remaining attempt st) =
    loaded target name items.
Proof.
  induction k as [|k IH]; intros [|remaining] attempt st Hk Hrange Hload Hbefore;
    try lia; rewrite attempts_unfold;
    pose proof (one_attempt_outcome attempt st) as Hone;
    destruct (one_attempt max_retries env target max_items attempt st)
      as [c st']; cbn [fst] in Hone; subst c.
  - rewrite Z.add_0_r in Hload. rewrite Hload. reflexivity.
  - assert (Hnot := Hbefore attempt ltac:(lia)).
    assert (Hnext : fst (attempts max_retries env target max_items remaining
                           (attempt + 1) st') = loaded target name items).
    { apply IH; try lia.
      - rewrite <- Hload. f_equal. f_equal. lia.
      - intros j Hj. apply Hbefore. lia. }
    destruct (outcome max_items (env attempt)) as [n its| |msg];
      [discriminate | exact Hnext |].
    destruct (Z.eqb_spec attempt (max_retries - 1)); [lia | exact Hnext].
Qed.

(** X6.  The first attempt that reads the page decides the result: what the
    attempts before it met (rate limits, exceptions) leaves no trace in
    it. *)
Theorem first_loaded_attempt_wins (i : Z) (name : option string)
    (items : list MediaItem) :
  0 <= i < max_retries ->
  outcome max_items (env i) = Loaded name items ->
  (forall j, 0 <= j < i -> is_loaded (outcome max_items (env j)) = false) ->
  fst (scrape_location max_retries env target max_items) =
  {| location_url := target; location_name := name;
     media_items := items; success := true; error := None |}.
Proof.
  intros Hi Hload Hbefore. unfold scrape_location.
  apply (attempts_first_loaded name items (Z.to_nat i)); try lia.
  - now rewrite Z2Nat.id by lia.
  - intros j Hj. apply Hbefore. lia.
Qed.

Lemma attempts_none_loaded (remaining : nat) :
  forall (attempt : Z) (st : state),
    (0 < remaining)%nat -> attempt + Z.of_nat remaining = max_retries ->
    (forall j, attempt <= j < max_retries ->
       is_loaded (outcome max_items (env j)) = false) ->
    fst (attempts max_retries env target max_items remaining attempt st) =
    failure target
      match outcome max_items (env (max_retries - 1)) with
      | Failed msg => msg
      | _ => "Max retries exceeded"
      end.
Proof.
  induction remaining as [|remaining IH]; intros attempt st Hpos Hsum Hnone;
    [lia |].
  rewrite attempts_unfold.
  pose proof (one_attempt_outcome attempt st) as Hone.
  destruct (one_attempt max_retries env target max_items attempt st)
    as [c st']; cbn [fst] in Hone; subst c.
  assert (Hnot := Hnone attempt ltac:(lia)).
  destruct remaining as [|remaining].
  - assert (attempt = max_retries - 1) as -> by lia.
    destruct (outcome max_items (env (max_retries - 1))) as [n its| |msg];
      [discriminate | reflexivity |].
    now rewrite Z.eqb_refl.
  - assert (Hnext : fst (attempts max_retries env target max_items
                           (S remaining) (attempt + 1) st') =
                    failure target
                      match outcome max_items (env (max_retries - 1)) with
                      | Failed msg => msg
                      | _ => "Max retries exceeded"
                      end).
    { apply IH; try lia. intros j Hj. apply Hnone. lia. }
    destruct (outcome max_items (env attempt)) as [n its| |msg];
      [discriminate | exact Hnext |].
    destruct (Z.eqb_spec attempt (max_retries - 1)); [lia | exact Hnext].
Qed.

(** X7.  When no attempt reads the page, the last attempt alone decides the
    error: its exception message or, when it was rate limited, "Max
    retries exceeded".  The errors of the earlier attempts are dropped. *)
Theorem last_attempt_decides_error :
  0 < max_retries ->
  (forall j, 0 <= j < max_retries ->
     is_loaded (outcome max_items (env j)) = false) ->
  fst (scrape_location max_retries env target max_items) =
  failure target
    match outcome max_items (env (max_retries - 1)) with
    | Failed msg => msg
    | _ => "Max retries exceeded"
    end.
Proof.
  intros Hpos Hnone. unfold scrape_location.
  apply attempts_none_loaded; try lia. exact Hnone.
Qed.

(** X8.  With no retry allowed the loop body never runs: no browser is
    launched and the result is the failure after the loop. *)
Theorem no_retries_no_attempt :
  max_retries <= 0 ->
  scrape_location max_retries env target max_items =
  (failure target "Max retries exceeded", initial).
Proof.
  intros Hnone. unfold scrape_location.
  destruct max_retries; try lia; reflexivity.
Qed.

(** *** Pauses and sessions *)

Lemma sleeps_app (l k : list event) : sleeps (l ++ k) = (sleeps l ++ sleeps k)%list.
Proof. unfold sleeps. apply omap_app. Qed.

(** The handler, entered with at most the session of [browser] open. *)
Lemma on_exception_state (attempt : Z) (e : exn) (st : state) :
  open_sessions st = [] \/
    (exists b, browser st = Some b /\ open_sessions st = [b]) ->
  let st' := snd (on_exception max_retries target attempt e st) in
  open_sessions st' = [] /\ launched st' = launched st /\
  sleeps (log st') =
    (sleeps (log st) ++
     if attempt =? max_retries - 1 then [] else [5 * (attempt + 1)])%list.
Proof.
  intros Hopen. unfold on_exception.
  set (closed := match browser st with Some b => close b st | None => st end).
  assert (Hclosed : open_sessions closed = [] /\ launched closed = launched st /\
                    sleeps (log closed) = sleeps (log st)).
  { subst closed. destruct Hopen as [Hnone | (b & -> & Hb)].
    - destruct (browser st); cbn; [| auto].
      rewrite Hnone, sleeps_app. cbn. now rewrite app_nil_r.
    - cbn. rewrite Hb, sleeps_app. cbn. rewrite Nat.eqb_refl, app_nil_r. auto. }
  destruct Hclosed as (Ho & Hl & Hs).
  destruct (attempt =? max_retries - 1); cbn.
  - rewrite app_nil_r. auto.
  - rewrite sleeps_app, Hs. auto.
Qed.

Lemma attempts_failing (remaining : nat) :
  forall (attempt : Z) (st : state),
    attempt + Z.of_nat remaining = max_retries ->
    open_sessions st = [] ->
    (forall j, attempt <= j < max_retries ->
       exists msg, outcome max_items (env j) = Failed msg) ->
    let st' := snd (attempts max_retries env target max_items remaining attempt st) in
    open_sessions st' = [] /\
    sleeps (log st') =
      (sleeps (log st) ++
       ((fun i => 5 * (i + 1)) <$> seqZ attempt (Z.of_nat remaining - 1)))%list.
Proof.
  induction remaining as [|remaining IH]; intros attempt st Hsum Hopen Hfail.
  - cbn. now rewrite app_nil_r.
  - rewrite attempts_unfold.
    destruct (Hfail attempt ltac:(lia)) as [msg Hmsg].
    pose proof (one_attempt_outcome attempt st) as Hone. rewrite Hmsg in Hone.
    assert (Hst : let st1 := snd (one_attempt max_retries env target max_items attempt st) in
              open_sessions st1 = [] /\
              sleeps (log st1) =
                (sleeps (log st) ++
                 if attempt =? max_retries - 1 then [] else [5 * (attempt + 1)])%list).
    { unfold one_attempt. unfold outcome in Hmsg.
      destruct (env attempt) as [e | [[response p] | e]].
      - destruct (on_exception_state attempt e st) as (H1 & _ & H2); auto.
      - case_bool_decide; [discriminate |].
        destruct (read_page response p max_items) as [[name items] | e];
          [discriminate |].
        destruct (on_exception_state attempt e (launch st)) as (H1 & _ & H2).
        + right. exists (launched st). cbn. now rewrite Hopen.
        + cbn in H2. rewrite sleeps_app, app_nil_r in H2. auto.
      - destruct (on_exception_state attempt e (launch st)) as (H1 & _ & H2).
        + right. exists (launched st). cbn. now rewrite Hopen.
        + cbn in H2. rewrite sleeps_app, app_nil_r in H2. auto. }
    destruct (one_attempt max_retries env target max_items attempt st)
      as [c st1]; cbn [fst snd] in Hone, Hst; subst c.
    destruct Hst as (Hopen1 & Hlog1).
    destruct (Z.eqb_spec attempt (max_retries - 1)) as [Hlast|Hmore].
    + cbn [snd]. split; [assumption |]. rewrite Hlog1.
      replace (Z.of_nat (S remaining) - 1) with 0 by lia. reflexivity.
    + destruct (IH (attempt + 1) st1) as (Hopen2 & Hlog2); try lia; try assumption.
      { intros j Hj. apply Hfail. lia. }
      split; [assumption |]. rewrite Hlog2, Hlog1, <- app_assoc. f_equal.
      rewrite (seqZ_cons attempt) by lia. cbn. do 3 f_equal; lia.
Qed.

(** X9.  When every attempt ends in the exception handler, the pauses between
    the attempts grow by five seconds each (5, 10, ...), there is none
    after the last attempt, and no session is left open. *)
Theorem failing_attempts_back_off :
  0 <= max_retries ->
  (forall j, 0 <= j < max_retries ->
     exists msg, outcome max_items (env j) = Failed msg) ->
  let st := snd (scrape_location max_retries env target max_items) in
  sleeps (log st) = ((fun i => 5 * (i + 1)) <$> seqZ 0 (max_retries - 1)) /\
  open_sessions st = [].
Proof.
  intros Hpos Hfail. unfold scrape_location.
  destruct (attempts_failing (Z.to_nat max_retries) 0 initial) as (Hopen & Hlog);
    try lia; try reflexivity; try assumption.
  split; [| assumption]. rewrite Hlog. cbn. do 2 f_equal. lia.
Qed.

Lemma one_attempt_rate_limited (attempt : Z) (st : state) :
  is_rate_limited (env attempt) = true ->
  one_attempt max_retries env target max_items attempt st =
  (Continue, sleep (30 * (attempt + 1)) (launch st)).
Proof.
  intros Hrl. unfold one_attempt.
  destruct (env attempt) as [e | [[[status|] p] | e]]; try discriminate Hrl.
  case_bool_decide as H429; [reflexivity |].
  exfalso. apply H429. f_equal.
  unfold is_rate_limited in Hrl.
  destruct status as [|q|q]; try discriminate Hrl.
  repeat (destruct q as [q|q|]; try discriminate Hrl). reflexivity.
Qed.

Lemma attempts_rate_limited (remaining : nat) :
  forall (attempt : Z) (st : state),
    (forall j, attempt <= j < attempt + Z.of_nat remaining ->
       is_rate_limited (env j) = true) ->
    let r := attempts max_retries env target max_items remaining attempt st in
    fst r = failure target "Max retries exceeded" /\
    open_sessions (snd r) =
      (open_sessions st ++ seq (launched st) remaining)%list /\
    sleeps (log (snd r)) =
      (sleeps (log st) ++
       ((fun i => 30 * (i + 1)) <$> seqZ attempt (Z.of_nat remaining)))%list.
Proof.
  induction remaining as [|remaining IH]; intros attempt st Hrl.
  - cbn. now rewrite !app_nil_r.
  - rewrite attempts_unfold, one_attempt_rate_limited by (apply Hrl; lia).
    destruct (IH (attempt + 1) (sleep (30 * (attempt + 1)) (launch st)))
      as (Hr & Hopen & Hlog).
    { intros j Hj. apply Hrl. lia. }
    split; [assumption |]. split.
    + rewrite Hopen. cbn. now rewrite <- app_assoc.
    + rewrite Hlog. cbn [log sleep launch]. rewrite !sleeps_app. cbn.
      rewrite app_nil_r, <- app_assoc. f_equal.
      rewrite (seqZ_cons attempt) by lia. cbn. do 3 f_equal; lia.
Qed.

(** X10.  When every attempt is rate limited the result is "Max retries
    exceeded", the pauses grow by thirty seconds each (30, 60, ...), the
    last one is slept before the function returns, and every session that
    was launched is still open. *)
Theorem rate_limited_attempts_back_off :
  (forall j, 0 <= j < max_retries -> is_rate_limited (env j) = true) ->
  let r := scrape_location max_retries env target max_items in
  fst r = failure target "Max retries exceeded" /\
  sleeps (log (snd r)) = ((fun i => 30 * (i + 1)) <$> seqZ 0 max_retries) /\
  open_sessions (snd r) = seq 0 (Z.to_nat max_retries).
Proof.
  intros Hrl. unfold scrape_location.
  destruct (attempts_rate_limited (Z.to_nat max_retries) 0 initial)
    as (Hr & Hopen & Hlog).
  { intros j Hj. apply Hrl. lia. }
  split; [assumption |]. split; [| assumption].
  rewrite Hlog. cbn [initial log sleeps omap list_omap app].
  destruct (Z.le_gt_cases 0 max_retries).
  - now rewrite Z2Nat.id.
  - rewrite !seqZ_nil by lia. reflexivity.
Qed.

Lemma attempts_no_leak (remaining : nat) :
  forall (attempt : Z) (st : state),
    open_sessions st = [] ->
    (forall j, attempt <= j < attempt + Z.of_nat remaining ->
       is_rate_limited (env j) = false) ->
    open_sessions
      (snd (attempts max_retries env target max_items remaining attempt st)) = [].
Proof.
  induction remaining as [|remaining IH]; intros attempt st Hopen Hnot;
    [assumption |].
  rewrite attempts_unfold.
  pose proof (ScraperProps.attempt_closes_session max_retries env target
                max_items attempt st Hopen (Hnot attempt ltac:(lia))) as Hone.
  destruct (one_attempt max_retries env target max_items attempt st)
    as [[r|] st1]; cbn [snd] in Hone; [assumption |].
  apply IH; [assumption |]. intros j Hj. apply Hnot. lia.
Qed.

(** X11.  Without a rate limit the function returns with every session it
    launched closed, whatever the attempts meet. *)
Theorem no_rate_limit_no_leak :
  (forall j, 0 <= j < max_retries -> is_rate_limited (env j) = false) ->
  open_sessions (snd (scrape_location max_retries env target max_items)) = [].
Proof.
  intros Hnot. unfold scrape_location.
  apply attempts_no_leak; [reflexivity |].
  intros j Hj. apply Hnot. lia.
Qed.

(** *** What a scrape result looks like *)

Lemma attempts_result (remaining : nat) :
  forall (attempt : Z) (st : state),
    let r := fst (attempts max_retries env target max_items remaining attempt st) in
    (exists msg, r = failure target msg) \/
    (exists i name items,
       attempt <= i < attempt + Z.of_nat remaining /\
       outcome max_items (env i) = Loaded name items /\
       r = loaded target name items).
Proof.
  induction remaining as [|remaining IH]; intros attempt st.
  - left. eexists. reflexivity.
  - cbn zeta. rewrite attempts_unfold.
    pose proof (one_attempt_outcome attempt st) as Hone.
    destruct (one_attempt max_retries env target max_items attempt st)
      as [c st1]; cbn [fst] in Hone; subst c.
    assert (Hnext :
      (exists msg,
         fst (attempts max_retries env target max_items remaining (attempt + 1) st1) =
         failure target msg) \/
      (exists i name items,
         attempt <= i < attempt + Z.of_nat (S remaining) /\
         outcome max_items (env i) = Loaded name items /\
         fst (attempts max_retries env target max_items remaining (attempt + 1) st1) =
         loaded target name items)).
    { destruct (IH (attempt + 1) st1) as [Hfail | (i & name & items & Hi & Ho & Hr)];
        [now left | right].
      exists i, name, items. repeat split; try assumption; lia. }
    destruct (outcome max_items (env attempt)) as [name items| |msg] eqn:Ho.
    + right. exists attempt, name, items. repeat split; try assumption; lia.
    + exact Hnext.
    + destruct (attempt =? max_retries - 1); [| exact Hnext].
      left. eexists. reflexivity.
Qed.

Lemma one_attempt_launched (attempt : Z) (st : state) :
  (launched (snd (one_attempt max_retries env target max_items attempt st))
   <= S (launched st))%nat.
Proof.
  assert (Hexc : forall e st',
            launched (snd (on_exception max_retries target attempt e st')) =
            launched st').
  { intros e st'. unfold on_exception.
    destruct (browser st'), (attempt =? max_retries - 1); reflexivity. }
  unfold one_attempt.
  destruct (env attempt) as [e | [[response p] | e]].
  - rewrite Hexc. lia.
  - case_bool_decide; [cbn; lia |].
    destruct (read_page response p max_items) as [[name items] | e].
    + cbn. lia.
    + rewrite Hexc. cbn. lia.
  - rewrite Hexc. cbn. lia.
Qed.

Lemma attempts_launched (remaining : nat) :
  forall (attempt : Z) (st : state),
    (launched (snd (attempts max_retries env target max_items remaining attempt st))
     <= launched st + remaining)%nat.
Proof.
  induction remaining as [|remaining IH]; intros attempt st; [cbn; lia |].
  rewrite attempts_unfold.
  pose proof (one_attempt_launched attempt st) as Hone.
  destruct (one_attempt max_retries env target max_items attempt st)
    as [[r|] st1]; cbn [snd] in *; [lia |].
  specialize (IH (attempt + 1) st1). lia.
Qed.

(** X12.  Every result names the location it was asked for; it is a success
    exactly when it carries no error; a failure carries no item and no
    name; a success carries what one of the allowed attempts read; and at
    most [max_retries] browsers were launched. *)
Theorem scrape_result_shape :
  exists r st,
    scrape_location max_retries env target max_items = (r, st) /\
    location_url r = target /\
    (success r = true <-> error r = None) /\
    (success r = false -> media_items r = [] /\ location_name r = None) /\
    (success r = true ->
       exists i, 0 <= i < max_retries /\
         outcome max_items (env i) = Loaded (location_name r) (media_items r)) /\
    (launched st <= Z.to_nat max_retries)%nat.
Proof.
  unfold scrape_location.
  pose proof (attempts_result (Z.to_nat max_retries) 0 initial) as Hr.
  pose proof (attempts_launched (Z.to_nat max_retries) 0 initial) as Hl.
  destruct (attempts max_retries env target max_items (Z.to_nat max_retries) 0 initial)
    as [r st]. cbn [fst snd] in Hr, Hl.
  exists r, st. split; [reflexivity |].
  destruct Hr as [(msg & ->) | (i & name & items & Hi & Ho & ->)]; cbn.
  - repeat split; try discriminate; try reflexivity. exact Hl.
  - repeat split; try discriminate; try reflexivity; [| exact Hl].
    intros _. exists i. split; [lia | assumption].
Qed.

End Retries.

(** *** Instances *)

Lemma first_loaded_attempt_wins_witness :
  exists items,
    fst (scrape_location 3 (limited_then_loads grid) club_url 2) =
    {| location_url := club_url; location_name := Some "Club";
       media_items := items; success := true; error := None |}.
Proof.
  eexists.
  apply (first_loaded_attempt_wins 3 (limited_then_loads grid) club_url 2 1
           (Some "Club")).
  - lia.
  - reflexivity.
  - intros j Hj. assert (j = 0) as -> by lia. reflexivity.
Defined.

Lemma last_attempt_decides_error_witness :
  fst (scrape_location 3 (crashes "Timeout 30000ms exceeded") club_url 10) =
  failure club_url "Timeout 30000ms exceeded".
Proof.
  apply (last_attempt_decides_error 3 (crashes "Timeout 30000ms exceeded") club_url 10).
  - lia.
  - intros j _. reflexivity.
Defined.

Lemma no_retries_no_attempt_witness :
  scrape_location 0 (loads grid) club_url 10 =
  (failure club_url "Max retries exceeded", initial).
Proof. apply (no_retries_no_attempt 0 (loads grid) club_url 10). lia. Defined.

Lemma failing_attempts_back_off_witness :
  sleeps (log (snd (scrape_location 3 (crashes "Timeout") club_url 10))) = [5; 10] /\
  open_sessions (snd (scrape_location 3 (crashes "Timeout") club_url 10)) = [].
Proof.
  apply (failing_attempts_back_off 3 (crashes "Timeout") club_url 10).
  - lia.
  - intros j _. eexists. reflexivity.
Defined.

Lemma rate_limited_attempts_back_off_witness :
  fst (scrape_location 3 rate_limited club_url 10) =
    failure club_url "Max retries exceeded" /\
  sleeps (log (snd (scrape_location 3 rate_limited club_url 10))) = [30; 60; 90] /\
  open_sessions (snd (scrape_location 3 rate_limited club_url 10)) = [0; 1; 2]%nat.
Proof.
  apply (rate_limited_attempts_back_off 3 rate_limited club_url 10).
  intros j _. reflexivity.
Defined.

Lemma no_rate_limit_no_leak_witness :
  open_sessions (snd (scrape_location 3 (crashes "Timeout") club_url 10)) = [].
Proof.
  apply (no_rate_limit_no_leak 3 (crashes "Timeout") club_url 10).
  intros j _. reflexivity.
Defined.

End RetryProps.

(** ** Strings *)

Module StringProps.
Import Py ScrapeTerms ReplyTerms ShortcodeProps.

Lemma append_assoc (a b c : string) : (a ++ b) ++ c = a ++ b ++ c.
Proof. induction a as [|x a IH]; [reflexivity |]. rewrite !app_cons. now f_equal. Qed.

Lemma append_nil_r (a : string) : a ++ "" = a.
Proof. induction a as [|x a IH]; [reflexivity |]. rewrite app_cons. now f_equal. Qed.

Lemma rstrip_unfold (c : ascii) (s : string) :
  rstrip (String c s) =
  match rstrip s with
  | EmptyString => if is_space c then EmptyString else String c EmptyString
  | r => String c r
  end.
Proof. reflexivity. Qed.

Lemma rstrip_nonspace (c : ascii) (s : string) :
  is_space c = false -> rstrip (String c s) = String c (rstrip s).
Proof. intros Hc. rewrite rstrip_unfold, Hc. now destruct (rstrip s). Qed.

Lemma rstrip_after (a b : string) :
  rstrip b <> "" -> rstrip (a ++ b) = a ++ rstrip b.
Proof.
  intros Hb. induction a as [|c a IH]; [reflexivity |].
  rewrite !app_cons, rstrip_unfold, IH.
  destruct (a ++ rstrip b) eqn:Hab; [| reflexivity].
  destruct a; [| discriminate]. now destruct Hb.
Qed.

Lemma rstrip_idem (s : string) : rstrip (rstrip s) = rstrip s.
Proof.
  induction s as [|c s IH]; [reflexivity |].
  rewrite rstrip_unfold. destruct (rstrip s) as [|d r] eqn:Hr.
  - destruct (is_space c) eqn:Hc; [reflexivity |].
    rewrite rstrip_unfold. cbn [rstrip]. now rewrite Hc.
  - rewrite rstrip_unfold, IH. reflexivity.
Qed.

Lemma lstrip_head (s : string) :
  lstrip s = "" \/ exists c r, lstrip s = String c r /\ is_space c = false.
Proof.
  induction s as [|c s IH]; [now left |]. cbn [lstrip].
  destruct (is_space c) eqn:Hc; [exact IH |]. right. eauto.
Qed.

Lemma strip_idem (s : string) : strip (strip s) = strip s.
Proof.
  unfold strip. destruct (lstrip_head s) as [-> | (c & r & -> & Hc)];
    [reflexivity |].
  rewrite (rstrip_nonspace c r Hc). cbn [lstrip]. rewrite Hc.
  rewrite <- (rstrip_nonspace c r Hc). apply rstrip_idem.
Qed.

Lemma all_chars_lstrip (p : ascii -> bool) (s : string) :
  all_chars p s = true -> all_chars p (lstrip s) = true.
Proof.
  induction s as [|c s IH]; [reflexivity |]. cbn [lstrip].
  destruct (is_space c); [| auto]. cbn. intros [_ H]%andb_prop. auto.
Qed.

Lemma all_chars_rstrip (p : ascii -> bool) (s : string) :
  all_chars p s = true -> all_chars p (rstrip s) = true.
Proof.
  induction s as [|c s IH]; [reflexivity |].
  cbn [all_chars]. intros [Hc Hs]%andb_prop. rewrite rstrip_unfold.
  specialize (IH Hs). destruct (rstrip s) as [|d r].
  - destruct (is_space c); [reflexivity |]. cbn. now rewrite Hc.
  - cbn [all_chars] in *. now rewrite Hc.
Qed.

Lemma fence_head (c : ascii) (s : string) :
  negb (Ascii.eqb c "`") = true -> startswith "```" (String c s) = false.
Proof.
  intros Hc. unfold startswith. cbn [String.prefix].
  destruct (ascii_dec "`" c) as [<-|]; [discriminate | reflexivity].
Qed.

Lemma no_fence (s : string) : no_backtick s = true -> startswith "```" s = false.
Proof.
  destruct s as [|c s]; [reflexivity |]. unfold no_backtick. cbn [all_chars].
  intros [Hc _]%andb_prop. now apply fence_head.
Qed.

Lemma before_unfold (sep : string) (c : ascii) (s : string) :
  before sep (String c s) =
  if startswith sep (String c s) then EmptyString else String c (before sep s).
Proof. reflexivity. Qed.

Lemma before_fence (body rest : string) :
  no_backtick body = true -> before "```" (body ++ "```" ++ rest) = body.
Proof.
  induction body as [|c body IH]; intros Hbody.
  - change ("" ++ "```" ++ rest) with (String "`" ("``" ++ rest)).
    rewrite before_unfold.
    now rewrite (startswith_app "```" rest
                 : startswith "```" (String "`" ("``" ++ rest)) = true).
  - unfold no_backtick in *. cbn [all_chars] in Hbody.
    apply andb_prop in Hbody as [Hc Hbody].
    rewrite app_cons, before_unfold, fence_head by assumption.
    f_equal. now apply IH.
Qed.

(** Without a closing fence, [split] cuts nothing. *)
Lemma before_absent (body : string) :
  no_backtick body = true -> before "```" body = body.
Proof.
  induction body as [|c body IH]; intros Hbody; [reflexivity |].
  unfold no_backtick in *. cbn [all_chars] in Hbody.
  apply andb_prop in Hbody as [Hc Hbody].
  rewrite before_unfold, fence_head by assumption. f_equal. now apply IH.
Qed.

End StringProps.

(** ** Replies of the endpoint *)

Module ReplyProps.
Import Py Analyzer Serialization ScrapeTerms ReplyTerms ShortcodeProps StringProps ResultProps.

(** *** Code fences *)

Lemma strip_fenced (inner tail : string) :
  strip ("```" ++ inner ++ "```" ++ tail) = "```" ++ inner ++ "```" ++ rstrip tail.
Proof.
  unfold strip.
  change (lstrip ("```" ++ inner ++ "```" ++ tail))
    with ("```" ++ inner ++ "```" ++ tail).
  assert (Hclose : rstrip ("```" ++ tail) = "```" ++ rstrip tail).
  { change ("```" ++ tail) with (String "`" (String "`" (String "`" tail))).
    now rewrite !rstrip_nonspace by reflexivity. }
  assert (Hne : rstrip ("```" ++ tail) <> "") by (rewrite Hclose; discriminate).
  rewrite <- (append_assoc "```" inner), rstrip_after by assumption.
  now rewrite Hclose, append_assoc.
Qed.

Lemma unfence_plain (text : string) :
  startswith "```" (strip text) = false -> unfence text = strip text.
Proof. unfold unfence. intros ->. apply strip_idem. Qed.

Lemma unfence_fenced (inner tail : string) :
  no_backtick inner = true ->
  unfence ("```" ++ inner ++ "```" ++ tail) =
  strip (if startswith "json" inner then drop_str 4 inner else inner).
Proof.
  intros Hinner. unfold unfence. rewrite strip_fenced.
  rewrite (startswith_app "```" (inner ++ "```" ++ rstrip tail)).
  change (drop_str 3 ("```" ++ inner ++ "```" ++ rstrip tail))
    with (inner ++ "```" ++ rstrip tail).
  now rewrite before_fence.
Qed.

(** X13.  A reply wrapped in a code fence, with or without the language tag
    "json" and whatever follows the closing fence, is read as the reply
    alone; the text handed to [json.loads] is the reply without the white
    space around it. *)
Theorem fence_is_transparent (body tail : string) :
  no_backtick body = true ->
  unfence ("```json" ++ body ++ "```" ++ tail) = unfence body /\
  (startswith "json" body = false ->
   unfence ("```" ++ body ++ "```" ++ tail) = unfence body) /\
  unfence body = strip body.
Proof.
  intros Hbody.
  assert (Hplain : unfence body = strip body).
  { apply unfence_plain, no_fence. unfold no_backtick, strip in *.
    now apply all_chars_rstrip, all_chars_lstrip. }
  rewrite Hplain. repeat split.
  - change ("```json" ++ body ++ "```" ++ tail)
      with ("```" ++ ("json" ++ body) ++ "```" ++ tail).
    rewrite unfence_fenced by exact Hbody.
    now rewrite (startswith_app "json" body).
  - intros Hlang. rewrite unfence_fenced by exact Hbody. now rewrite Hlang.
Qed.

Lemma fence_is_transparent_witness :
  unfence "```json
{}
```
Here is the analysis." = unfence "
{}
".
Proof. apply (fence_is_transparent "
{}
" "
Here is the analysis."). reflexivity. Defined.

(** *** The media type of the image *)

(** X14.  The media type sent with the image is one of four; a content type
    that names none of them, or a response without the header, is sent as
    JPEG, and "jpeg" or "jpg" anywhere in the header wins over the other
    names. *)
Theorem media_type_is_supported :
  (forall ct,
     media_type_of ct ∈ ["image/jpeg"; "image/png"; "image/gif"; "image/webp"]) /\
  (forall ct, contains "jpeg" ct = true \/ contains "jpg" ct = true ->
     media_type_of ct = "image/jpeg") /\
  (forall ct, contains "jpeg" ct = false -> contains "jpg" ct = false ->
     contains "png" ct = false -> contains "gif" ct = false ->
     contains "webp" ct = false -> media_type_of ct = "image/jpeg") /\
  (forall w url response,
     http_get w url = Ok response -> raise_for_status response = Ok () ->
     content_type response = None ->
     _fetch_image_as_base64 w url = Ok (content_b64 response, "image/jpeg")).
Proof.
  repeat split.
  - intros ct. unfold media_type_of.
    destruct (contains "jpeg" ct || contains "jpg" ct); [set_solver |].
    destruct (contains "png" ct); [set_solver |].
    destruct (contains "gif" ct); [set_solver |].
    destruct (contains "webp" ct); set_solver.
  - intros ct [H | H]; unfold media_type_of; rewrite H;
      [| rewrite orb_true_r]; reflexivity.
  - intros ct H1 H2 H3 H4 H5. unfold media_type_of.
    now rewrite H1, H2, H3, H4, H5.
  - intros w url response Hget Hstatus Hct.
    unfold _fetch_image_as_base64. rewrite Hget. cbn [mbind result_bind].
    rewrite Hstatus. cbn [mbind result_bind]. rewrite Hct. reflexivity.
Qed.

(** *** Replies in the expected format *)

Lemma compare_eq_finite (f : float) (m' : positive) (e' : Z) :
  SFcompare f (S754_finite false m' e') = Some Eq -> f = S754_finite false m' e'.
Proof.
  destruct f as [s|s| |s m e]; cbn [SFcompare].
  - destruct s; intros H; discriminate H.
  - destruct s; intros H; discriminate H.
  - intros H; discriminate H.
  - destruct s; [intros H; discriminate H |].
    destruct (Z.compare_spec e e') as [->|Hlt|Hgt];
      [| intros H; discriminate H | intros H; discriminate H].
    intros H. assert (Hm : Pos.compare_cont Eq m m' = Eq) by congruence.
    apply Pos.compare_eq in Hm. now subst m.
Qed.

Lemma clamp_unit_fixed (f : float) : in_unit f -> clamp_unit f = f.
Proof.
  intros [Hlo Hhi]. unfold clamp_unit, fmin, fmax.
  assert (Hmin : (if flt f f1_0 then f else f1_0) = f).
  { unfold flt, fle, SFltb, SFleb in *.
    destruct (SFcompare f f1_0) as [[]|] eqn:Hc; try discriminate Hhi; try reflexivity.
    symmetry. now apply compare_eq_finite. }
  rewrite Hmin. destruct Hlo as [-> | ->]; reflexivity.
Qed.

Lemma clamp_level_fixed (n : Z) : 1 <= n <= 10 -> clamp_level n = n.
Proof. unfold clamp_level. lia. Qed.

(** X15.  A reply in the format the prompt asks for is returned as it is:
    integer levels between 1 and 10, at most four tags, any description
    and a confidence between 0.0 and 1.0 reach the record unchanged. *)
Theorem conforming_reply_is_kept (w : world) (url text : string)
    (m : list (string * json)) (e c : Z) (tags : list json) (d : json) (f : float) :
  reply_text w url = Ok text ->
  json_loads w (unfence text) = Ok (JObj m) ->
  assoc "energy_level" m = Some (JInt e) -> 1 <= e <= 10 ->
  assoc "crowd_level" m = Some (JInt c) -> 1 <= c <= 10 ->
  assoc "vibe_tags" m = Some (JArr tags) -> (length tags <= 4)%nat ->
  assoc "description" m = Some d ->
  assoc "confidence" m = Some (JFloat f) -> in_unit f ->
  analyze_image w url =
  Ok {| image_url := url; energy_level := e; crowd_level := c;
        vibe_tags := JArr tags; description := d; confidence := f;
        success := true; error := None |}.
Proof.
  intros Hreply Hloads He Hre Hc Hrc Ht Hlen Hd Hf Hrf.
  unfold analyze_image. rewrite (AnalyzerProps.analyze_image_of_reply _ _ _ Hreply).
  unfold _parse_response, parse_body. rewrite Hloads.
  cbn [mbind result_bind get]. rewrite He, Hc, Ht, Hd, Hf.
  cbn [mbind result_bind int float_ slice4].
  rewrite !clamp_level_fixed, clamp_unit_fixed, take_ge by assumption.
  reflexivity.
Qed.

Lemma conforming_reply_is_kept_witness :
  analyze_image conforming_world "https://cdn.example/a.jpg" =
  Ok {| image_url := "https://cdn.example/a.jpg"; energy_level := 8;
        crowd_level := 7; vibe_tags := JArr [JStr "Techno"; JStr "Dark"];
        description := JStr "A packed dance floor"; confidence := f0_5;
        success := true; error := None |}.
Proof.
  apply (conforming_reply_is_kept conforming_world "https://cdn.example/a.jpg" "{}"
           [("energy_level", JInt 8); ("crowd_level", JInt 7);
            ("vibe_tags", JArr [JStr "Techno"; JStr "Dark"]);
            ("description", JStr "A packed dance floor");
            ("confidence", JFloat f0_5)]);
    try reflexivity; try lia; try (cbn; lia).
  split; [right |]; reflexivity.
Defined.

(** *** Confidence values that are not numbers *)

(** X16.  [json.loads] accepts NaN and the infinities.  A confidence that is
    NaN or positive infinity becomes 1.0, the highest confidence, and the
    record counts in the summary; negative infinity becomes 0.0. *)
Theorem nan_confidence_is_full_confidence (w : world) (text url : string)
    (m : list (string * json)) (a : VibeAnalysis) :
  json_loads w (unfence text) = Ok (JObj m) ->
  parse_body w text url = Ok a ->
  (assoc "confidence" m = Some (JFloat S754_nan) \/
   assoc "confidence" m = Some (JFloat (S754_infinity false)) ->
   confidence a = f1_0 /\ Scout.contributes a = true) /\
  (assoc "confidence" m = Some (JFloat (S754_infinity true)) ->
   confidence a = f0_0 /\ Scout.contributes a = false).
Proof.
  intros Hloads Hbody. unfold parse_body in Hbody. rewrite Hloads in Hbody.
  cbn [mbind result_bind get] in Hbody.
  apply bind_Ok in Hbody as (energy & _ & Hbody).
  apply bind_Ok in Hbody as (crowd & _ & Hbody).
  apply bind_Ok in Hbody as (tags & _ & Hbody).
  split.
  - intros Hconf.
    assert (Ha : exists f, (f = S754_nan \/ f = S754_infinity false) /\
                   assoc "confidence" m = Some (JFloat f)).
    { destruct Hconf; eauto. }
    destruct Ha as (f & Hf & Hm). rewrite Hm in Hbody.
    cbn [mbind result_bind float_] in Hbody. injection Hbody as <-.
    unfold Scout.contributes. cbn [confidence success].
    destruct Hf as [-> | ->]; split; reflexivity.
  - intros Hm. rewrite Hm in Hbody.
    cbn [mbind result_bind float_] in Hbody. injection Hbody as <-.
    unfold Scout.contributes. cbn [confidence success]. split; reflexivity.
Qed.

Lemma nan_confidence_is_full_confidence_witness :
  exists a,
    analyze_image nan_confidence_world "https://cdn.example/a.jpg" = Ok a /\
    confidence a = f1_0 /\ Scout.contributes a = true.
Proof.
  eexists. split; [reflexivity |].
  destruct (nan_confidence_is_full_confidence nan_confidence_world "{}"
              "https://cdn.example/a.jpg" [("confidence", JFloat S754_nan)]
              _ eq_refl eq_refl) as [Hnan _].
  apply Hnan. left. reflexivity.
Defined.

(** *** Failures the parser does not handle *)

(** X17.  A reply that decodes to something other than an object, or whose
    energy level is a string that holds no integer, fails outside the
    classes [_parse_response] handles: the record says "Analysis failed",
    not "Failed to parse analysis". *)
Theorem unhandled_reply_is_analysis_failure (w : world) (url text : string) :
  reply_text w url = Ok text ->
  (forall v, json_loads w (unfence text) = Ok v ->
     (forall m, v <> JObj m) ->
     exists msg, analyze_image w url = Ok (degraded url "Analysis failed" msg)) /\
  (forall m s, json_loads w (unfence text) = Ok (JObj m) ->
     assoc "energy_level" m = Some (JStr s) -> int_of_str (parsers w) s = None ->
     exists msg, analyze_image w url = Ok (degraded url "Analysis failed" msg)).
Proof.
  intros Hreply. split.
  - intros v Hloads Hv. unfold analyze_image.
    rewrite (AnalyzerProps.analyze_image_of_reply _ _ _ Hreply).
    unfold _parse_response, parse_body. rewrite Hloads.
    destruct v; try (eexists; reflexivity). now destruct (Hv m).
  - intros m s Hloads Hm Hs. unfold analyze_image.
    rewrite (AnalyzerProps.analyze_image_of_reply _ _ _ Hreply).
    unfold _parse_response, parse_body. rewrite Hloads.
    cbn [mbind result_bind get]. rewrite Hm. cbn [mbind result_bind int].
    rewrite Hs. eexists. reflexivity.
Qed.

Lemma unhandled_reply_is_analysis_failure_witness :
  exists msg,
    analyze_image list_reply_world "https://cdn.example/a.jpg" =
    Ok (degraded "https://cdn.example/a.jpg" "Analysis failed" msg).
Proof.
  destruct (unhandled_reply_is_analysis_failure list_reply_world
              "https://cdn.example/a.jpg" "[]" eq_refl) as [Hlist _].
  apply (Hlist (JArr [])); [reflexivity | discriminate].
Defined.

(** *** Invariants of the record *)

Lemma parse_body_url (w : world) (text url : string) (a : VibeAnalysis) :
  parse_body w text url = Ok a -> image_url a = url.
Proof.
  unfold parse_body. intros H.
  repeat (apply bind_Ok in H as (? & _ & H)).
  now injection H as <-.
Qed.

(** The three ways a record is built. *)
Lemma analyze_image_cases (w : world) (url : string) :
  exists a, analyze_image w url = Ok a /\
    ((exists text, parse_body w text url = Ok a) \/
     (exists descr err, a = degraded url descr err)).
Proof.
  unfold analyze_image.
  destruct (analyze_body w url) as [a|e] eqn:Hbody.
  - exists a. split; [reflexivity |]. unfold analyze_body in Hbody.
    apply bind_Ok in Hbody as (text & _ & Hparse).
    unfold _parse_response in Hparse.
    destruct (parse_body w text url) as [a'|e] eqn:Hpb.
    + injection Hparse as ->. eauto.
    + destruct (catches _ e); [| discriminate].
      injection Hparse as <-. eauto.
  - destruct (catches [HTTPError] e); [eauto 6 |].
    rewrite AnalyzerProps.catches_Exception. eauto 6.
Qed.

(** X18.  The record of an analysis names the URL that was asked for, is a
    success exactly when it carries no error, and a success is what the
    parser read from a reply. *)
Theorem analysis_record_invariants (w : world) (url : string) :
  exists a,
    analyze_image w url = Ok a /\
    image_url a = url /\
    (success a = true <-> error a = None) /\
    (success a = true -> exists text, parse_body w text url = Ok a).
Proof.
  destruct (analyze_image_cases w url) as (a & Ha & [[text Hp] | (d & err & ->)]);
    exists a || eexists; (split; [exact Ha |]).
  - destruct (AnalyzerProps.parse_body_success _ _ _ _ Hp) as [Hs He].
    rewrite Hs, He. repeat split; eauto. eapply parse_body_url; eassumption.
  - cbn. repeat split; discriminate.
Qed.

(** *** Batches *)

Lemma analyze_image_url (w : world) (url : string) (a : VibeAnalysis) :
  analyze_image w url = Ok a -> image_url a = url.
Proof.
  intros Ha.
  destruct (analyze_image_cases w url) as (a' & Ha' & [[text Hp] | (d & err & ->)]).
  - replace a with a' by congruence. eapply parse_body_url; eassumption.
  - replace a with (degraded url d err) by congruence. reflexivity.
Qed.

Lemma batch_keeps_urls (w : world) (urls : list string) :
  exists analyses,
    analyze_batch w urls = Ok analyses /\ map image_url analyses = urls.
Proof.
  induction urls as [|u urls (rest & Hrest & Hurls)]; cbn [analyze_batch].
  - exists []. split; reflexivity.
  - destruct (AnalyzerProps.analyze_image_total w u) as [a Ha].
    exists (a :: rest). rewrite Ha, Hrest. cbn [mbind result_bind map].
    split; [reflexivity |]. f_equal; [| assumption].
    eapply analyze_image_url; eassumption.
Qed.

(** X19.  The batch analyzes each URL on its own: one record per URL, in the
    order of the URLs and naming them, and the batch of two lists put
    together is the two batches put together. *)
Theorem batch_is_pointwise (w : world) (us vs : list string) :
  exists l1 l2,
    analyze_batch w us = Ok l1 /\ analyze_batch w vs = Ok l2 /\
    analyze_batch w (us ++ vs) = Ok (l1 ++ l2)%list /\
    map image_url l1 = us /\
    Forall2 (fun u a => analyze_image w u = Ok a) us l1.
Proof.
  destruct (PipelineProps.analyze_batch_total w vs) as (l2 & Hvs & _).
  induction us as [|u us (l1 & l2' & Hus & Hvs' & Happ & Hurls & Hall)].
  - exists [], l2. repeat split; try assumption; constructor.
  - assert (l2' = l2) as -> by congruence.
    destruct (AnalyzerProps.analyze_image_total w u) as [a Ha].
    exists (a :: l1), l2. cbn [analyze_batch app map].
    rewrite Ha, Hus, Happ. cbn [mbind result_bind].
    repeat split; try assumption.
    + f_equal; [eapply analyze_image_url; eassumption | assumption].
    + now constructor.
Qed.

(** *** The record as a dict *)

Lemma substring_idem (n : nat) (s : string) :
  substring 0 n (substring 0 n s) = substring 0 n s.
Proof.
  revert s. induction n as [|n IH]; intros [|c s]; cbn; try reflexivity.
  now rewrite IH.
Qed.

Lemma slice4_idem (v t : json) : slice4 v = Ok t -> slice4 t = Ok t.
Proof.
  destruct v; cbn; intros H; try discriminate H; injection H as <-; cbn.
  - now rewrite substring_idem.
  - now rewrite take_take.
Qed.

Lemma clamp_unit_in_unit (x : float) : in_unit (clamp_unit x).
Proof.
  split; [| apply AnalyzerProps.clamp_unit_range].
  unfold clamp_unit, fmax.
  destruct (flt f0_0 (fmin f1_0 x)) eqn:H; auto.
Qed.

(** The levels, tags and confidence of a record are fixed points of the
    clamps and of the slice. *)
Lemma analyze_image_normal (w : world) (url : string) (a : VibeAnalysis) :
  analyze_image w url = Ok a ->
  clamp_level (energy_level a) = energy_level a /\
  clamp_level (crowd_level a) = crowd_level a /\
  slice4 (vibe_tags a) = Ok (vibe_tags a) /\
  clamp_unit (confidence a) = confidence a.
Proof.
  intros Ha.
  destruct (analyze_image_cases w url) as (a' & Ha' & [[text Hp] | (d & err & ->)]).
  - replace a with a' by congruence. clear Ha Ha'. unfold parse_body in Hp.
    apply bind_Ok in Hp as (data & _ & Hp).
    apply bind_Ok in Hp as (energy & _ & Hp).
    apply bind_Ok in Hp as (crowd & _ & Hp).
    apply bind_Ok in Hp as (tags & Htags & Hp).
    apply bind_Ok in Hp as (descr & _ & Hp).
    apply bind_Ok in Hp as (conf & _ & Hp).
    injection Hp as <-. cbn [energy_level crowd_level vibe_tags confidence].
    apply bind_Ok in Htags as (v & _ & Htags).
    repeat split.
    + apply clamp_level_fixed, AnalyzerProps.clamp_level_range.
    + apply clamp_level_fixed, AnalyzerProps.clamp_level_range.
    + eapply slice4_idem; eassumption.
    + apply clamp_unit_fixed, clamp_unit_in_unit.
  - replace a with (degraded url d err) by congruence. repeat split.
Qed.

Lemma get_dict (a : VibeAnalysis) (d : json) :
  get (analysis_to_dict a) "energy_level" d = Ok (JInt (energy_level a)) /\
  get (analysis_to_dict a) "crowd_level" d = Ok (JInt (crowd_level a)) /\
  get (analysis_to_dict a) "vibe_tags" d = Ok (vibe_tags a) /\
  get (analysis_to_dict a) "description" d = Ok (description a) /\
  get (analysis_to_dict a) "confidence" d = Ok (JFloat (confidence a)).
Proof. repeat split. Qed.

(** X20.  Reading back the dict of a record gives the same scores: the levels,
    tags, description and confidence of every record [analyze_image]
    returns survive [analysis_to_dict] followed by the parser, which marks
    the result a success whatever the record was. *)
Theorem dict_round_trip (w w' : world) (url url' text' : string) (a : VibeAnalysis) :
  analyze_image w url = Ok a ->
  json_loads w' (unfence text') = Ok (analysis_to_dict a) ->
  parse_body w' text' url' =
  Ok {| image_url := url'; energy_level := energy_level a;
        crowd_level := crowd_level a; vibe_tags := vibe_tags a;
        description := description a; confidence := confidence a;
        success := true; error := None |}.
Proof.
  intros Ha Hloads.
  destruct (analyze_image_normal w url a Ha) as (He & Hc & Ht & Hf).
  unfold parse_body. rewrite Hloads. cbn [mbind result_bind].
  destruct (get_dict a (JInt 5)) as (-> & _).
  destruct (get_dict a (JInt 5)) as (_ & -> & _).
  destruct (get_dict a (JArr [])) as (_ & _ & -> & _).
  destruct (get_dict a (JStr "Unable to analyze")) as (_ & _ & _ & -> & _).
  destruct (get_dict a (JFloat f0_5)) as (_ & _ & _ & _ & ->).
  cbn [mbind result_bind int float_]. rewrite Ht. cbn [mbind result_bind].
  now rewrite He, Hc, Hf.
Qed.

Lemma dict_round_trip_witness :
  parse_body
    (replying "{}"
       (Ok (analysis_to_dict
              (degraded "https://cdn.example/a.jpg" "Analysis failed" "timeout"))))
    "{}" "https://cdn.example/b.jpg" =
  Ok {| image_url := "https://cdn.example/b.jpg"; energy_level := 5;
        crowd_level := 5; vibe_tags := JArr [JStr "Unknown"];
        description := JStr "Analysis failed"; confidence := f0_0;
        success := true; error := None |}.
Proof.
  apply (dict_round_trip (unreachable (Exn OtherError "timeout")) _
           "https://cdn.example/a.jpg" _ _
           (degraded "https://cdn.example/a.jpg" "Analysis failed" "timeout"));
    reflexivity.
Defined.

End ReplyProps.

(** ** Summaries *)

Module SummaryProps.
Import Py Scout AggregatorProps.

(** *** The order of the analyses *)

Lemma contributing_perm (l l' : list VibeAnalysis) :
  l ≡ₚ l' -> contributing l ≡ₚ contributing l'.
Proof.
  unfold contributing. induction 1 as [|x l l' _ IH|x y l|l l' l'' _ IH1 _ IH2];
    cbn [List.filter].
  - constructor.
  - destruct (contributes x); [now constructor | assumption].
  - destruct (contributes x), (contributes y); try reflexivity. apply perm_swap.
  - now transitivity (List.filter contributes l').
Qed.

Lemma sum_perm (xs ys : list Z) : xs ≡ₚ ys -> sum xs = sum ys.
Proof. unfold sum. induction 1; cbn; lia. Qed.

Lemma mean_perm (xs ys : list Z) : xs ≡ₚ ys -> mean xs = mean ys.
Proof.
  intros H. unfold mean.
  now rewrite (sum_perm xs ys H), (Permutation_length H).
Qed.

Lemma quotient_perm (xs ys : list Z) : xs ≡ₚ ys -> quotient xs = quotient ys.
Proof.
  intros H. unfold quotient.
  now rewrite (sum_perm xs ys H), (Permutation_length H).
Qed.

(** X21.  The summary of the same analyses in another order has the same
    status, sample size and averages: the order matters to the tags
    only. *)
Theorem order_of_analyses (analyses analyses' : list VibeAnalysis) (s : summary) :
  analyses ≡ₚ analyses' -> _aggregate_vibes analyses = Ok s ->
  exists s',
    _aggregate_vibes analyses' = Ok s' /\
    status s' = status s /\ sample_size s' = sample_size s /\
    avg_energy s' = avg_energy s /\ avg_crowd s' = avg_crowd s.
Proof.
  intros Hperm Hs. pose proof (contributing_perm _ _ Hperm) as Hc.
  assert (Hcount : Forall countable (contributing analyses'))
    by (rewrite <- Hc; apply aggregate_returns_iff; eauto).
  apply aggregate_returns_iff in Hcount as [s' Hs']. exists s'.
  split; [exact Hs' |].
  destruct (contributing analyses) as [|a l] eqn:Hl.
  - apply Permutation_nil in Hc.
    rewrite (aggregate_nil analyses Hl) in Hs.
    rewrite (aggregate_nil analyses' Hc) in Hs'.
    injection Hs as <-. injection Hs' as <-. repeat split.
  - assert (Hne : contributing analyses <> []) by (rewrite Hl; discriminate).
    assert (Hne' : contributing analyses' <> []).
    { intros Hnil. rewrite Hnil in Hc. rewrite <- Hl in Hc.
      apply Permutation_sym, Permutation_nil in Hc. contradiction. }
    destruct (aggregate_fields analyses s Hne Hs) as (-> & -> & -> & ->).
    destruct (aggregate_fields analyses' s' Hne' Hs') as (-> & -> & -> & ->).
    rewrite <- Hl in Hc.
    pose proof (Permutation_map energy_level Hc) as He.
    pose proof (Permutation_map crowd_level Hc) as Hcr.
    rewrite (mean_perm _ _ He), (mean_perm _ _ Hcr),
      (quotient_perm _ _ He), (quotient_perm _ _ Hcr), (Permutation_length Hc).
    repeat split.
Qed.

Lemma order_of_analyses_witness :
  exists s',
    _aggregate_vibes (rev techno_night) = Ok s' /\ status s' = "LIVE".
Proof.
  destruct (order_of_analyses techno_night (rev techno_night)
              {| avg_energy := Float 8.0%Q; avg_crowd := Float 7.3%Q;
                 top_vibe_tags := [JStr "Techno"; JStr "Dark"; JStr "Hype"];
                 status := "LIVE"; sample_size := 3 |})
    as (s' & Hs' & Hstatus & _).
  - apply Permutation_rev.
  - vm_compute. reflexivity.
  - exists s'. split; assumption.
Defined.

(** *** Records that do not contribute *)

(** X22.  A failed analysis, or one whose confidence is not above 0.3, changes
    nothing in the summary, wherever it stands in the list. *)
Theorem failed_analysis_is_ignored (a : VibeAnalysis)
    (before after : list VibeAnalysis) :
  success a = false \/ flt f0_3 (confidence a) = false ->
  _aggregate_vibes (before ++ a :: after) = _aggregate_vibes (before ++ after).
Proof.
  intros Ha. assert (Hc : contributes a = false).
  { unfold contributes. destruct Ha as [-> | ->]; [reflexivity | apply andb_false_r]. }
  unfold _aggregate_vibes. rewrite !List.filter_app. cbn [List.filter].
  now rewrite Hc.
Qed.

Lemma failed_analysis_is_ignored_witness :
  _aggregate_vibes
    (live_night ++ degraded "https://cdn.example/a.jpg" "Analysis failed" "" :: []) =
  _aggregate_vibes (live_night ++ []).
Proof.
  apply (failed_analysis_is_ignored
           (degraded "https://cdn.example/a.jpg" "Analysis failed" "") live_night []).
  left. reflexivity.
Defined.

(** *** The shape of a summary *)

Lemma bump_keys {K : Type} (eqb : K -> K -> bool) (t k : K) (counts : list (K * nat)) :
  k ∈ map fst (bump eqb t counts) -> k ∈ map fst counts \/ k = t.
Proof.
  induction counts as [|[k' n] counts IH]; cbn [bump map fst].
  - intros ->%list_elem_of_singleton. now right.
  - destruct (eqb k' t); cbn [map fst]; [now left |].
    intros [-> | Hk]%elem_of_cons; [left; left |].
    destruct (IH Hk) as [H | H]; [left; now right | now right].
Qed.

Lemma foldM_count_tag_keys (tags : list json) :
  forall (counts counts' : list (json * nat)) (k : json),
    foldM count_tag tags counts = Ok counts' ->
    k ∈ map fst counts' -> k ∈ map fst counts \/ k ∈ tags.
Proof.
  induction tags as [|t tags IH]; intros counts counts' k; cbn [foldM].
  - intros [= <-]. now left.
  - rewrite count_tag_unfold. destruct (hashable t); [| discriminate].
    cbn [mbind result_bind]. intros Hfold Hk.
    destruct (IH _ _ _ Hfold Hk) as [H | H]; [| right; now right].
    apply bump_keys in H as [H | ->]; [now left | right; left].
Qed.

Lemma foldM_count_tags_keys (l : list VibeAnalysis) :
  forall (counts counts' : list (json * nat)) (k : json),
    foldM count_tags l counts = Ok counts' ->
    k ∈ map fst counts' ->
    k ∈ map fst counts \/
    exists a tags, a ∈ l /\ iter (vibe_tags a) = Ok tags /\ k ∈ tags.
Proof.
  induction l as [|a l IH]; intros counts counts' k; cbn [foldM].
  - intros [= <-]. now left.
  - rewrite count_tags_unfold.
    destruct (iter (vibe_tags a)) as [tags|e] eqn:Hiter; [| discriminate].
    cbn [mbind result_bind].
    destruct (foldM count_tag tags counts) as [counts1|e] eqn:H1; [| discriminate].
    cbn [mbind result_bind]. intros Hfold Hk.
    destruct (IH _ _ _ Hfold Hk) as [H | (a' & tags' & Ha' & Hi' & Hk')].
    + destruct (foldM_count_tag_keys _ _ _ _ H1 H) as [H' | H']; [now left |].
      right. exists a, tags. repeat split; [left | assumption | assumption].
    + right. exists a', tags'. repeat split; [now right | assumption | assumption].
Qed.

(** X23.  Every summary shows between one and four tags, each of them "Unknown"
    or a tag of a contributing analysis, one of four statuses, and a
    sample size that is at most the number of analyses. *)
Theorem summary_shape (analyses : list VibeAnalysis) (s : summary) :
  _aggregate_vibes analyses = Ok s ->
  (1 <= length (top_vibe_tags s) <= 4)%nat /\
  Forall (fun t =>
            t = JStr "Unknown" \/
            exists a tags, a ∈ contributing analyses /\
              iter (vibe_tags a) = Ok tags /\ t ∈ tags) (top_vibe_tags s) /\
  status s ∈ ["LIVE"; "warming_up"; "dead"; "insufficient_data"] /\
  (sample_size s <= length analyses)%nat.
Proof.
  unfold _aggregate_vibes. fold (contributing analyses).
  assert (Hsize : (length (contributing analyses) <= length analyses)%nat)
    by apply List.filter_length_le.
  destruct (contributing analyses) as [|a l] eqn:Hl.
  - intros [= <-]. cbn. repeat split; try lia; [| set_solver].
    repeat constructor.
  - destruct (foldM count_tags (a :: l) []) as [counts|e] eqn:Hfold; [| discriminate].
    cbn [mbind result_bind]. intros [= <-].
    cbn [top_vibe_tags status sample_size].
    set (ranked := map fst (sorted_by_count counts)).
    assert (Hlen : (length (take 4 ranked) <= 4)%nat) by (rewrite length_take; lia).
    assert (Hfrom : Forall (fun t =>
              exists a' tags, a' ∈ a :: l /\ iter (vibe_tags a') = Ok tags /\ t ∈ tags)
              (take 4 ranked)).
    { apply Forall_forall. intros t Ht.
      apply (subseteq_take 4 ranked t) in Ht. subst ranked.
      rewrite (sorted_by_count_perm counts) in Ht.
      destruct (foldM_count_tags_keys _ _ _ _ Hfold Ht) as [H | H]; [| exact H].
      cbn in H. set_solver. }
    split; [| split; [| split]].
    + destruct (take 4 ranked); cbn in *; lia.
    + destruct (take 4 ranked) eqn:Ht; [repeat constructor |].
      eapply Forall_impl; [exact Hfrom |]. cbn. auto.
    + match goal with
      | |- classify ?e ?c ∈ _ =>
          destruct (classify_values e c) as [-> | [-> | ->]]; set_solver
      end.
    + exact Hsize.
Qed.

Lemma summary_shape_witness :
  exists s,
    _aggregate_vibes techno_night = Ok s /\
    (1 <= length (top_vibe_tags s) <= 4)%nat /\
    status s ∈ ["LIVE"; "warming_up"; "dead"; "insufficient_data"].
Proof.
  eexists. split; [vm_compute; reflexivity |].
  match goal with
  | |- context [top_vibe_tags ?s] =>
      destruct (summary_shape techno_night s) as (Hlen & _ & Hstatus & _);
      [vm_compute; reflexivity | split; assumption]
  end.
Defined.

(** *** Scores that agree *)

Lemma sum_bounds (lo hi : Z) (xs : list Z) :
  Forall (fun x => lo <= x <= hi) xs ->
  lo * Z.of_nat (length xs) <= sum xs <= hi * Z.of_nat (length xs).
Proof.
  unfold sum. induction 1 as [|x xs Hx _ IH]; cbn [foldr length]; [lia |].
  rewrite Nat2Z.inj_succ. lia.
Qed.

Lemma mean_bounds (lo hi : Z) (xs : list Z) :
  xs <> [] -> Forall (fun x => lo <= x <= hi) xs ->
  (inject_Z lo <= mean xs <= inject_Z hi)%Q.
Proof.
  intros Hne Hxs. pose proof (sum_bounds lo hi xs Hxs) as Hsum.
  unfold mean, Qle, inject_Z. cbn [Qnum Qden].
  destruct xs as [|x xs]; [congruence |].
  change (length (x :: xs)) with (S (length xs)) in *.
  rewrite <- Pos.of_nat_succ, Zpos_P_of_succ_nat, <- Nat2Z.inj_succ. lia.
Qed.

(** X24.  When the contributing scores agree on a range, so does the status:
    all levels at least 7 give LIVE, all levels below 5 give dead, all
    levels from 5 to 6 give warming_up. *)
Theorem unanimous_scores (analyses : list VibeAnalysis) (s : summary) (lo hi : Z) :
  contributing analyses <> [] -> _aggregate_vibes analyses = Ok s ->
  Forall (fun a => lo <= energy_level a <= hi /\ lo <= crowd_level a <= hi)
    (contributing analyses) ->
  (7 <= lo -> status s = "LIVE") /\
  (hi < 5 -> status s = "dead") /\
  (5 <= lo -> hi < 7 -> status s = "warming_up").
Proof.
  intros Hne Hs Hall.
  destruct (aggregate_fields analyses s Hne Hs) as (-> & _).
  assert (He : (inject_Z lo <= mean (map energy_level (contributing analyses))
                <= inject_Z hi)%Q).
  { apply mean_bounds; [now destruct (contributing analyses) |].
    apply Forall_map. eapply Forall_impl; [exact Hall |]. cbn. tauto. }
  assert (Hc : (inject_Z lo <= mean (map crowd_level (contributing analyses))
                <= inject_Z hi)%Q).
  { apply mean_bounds; [now destruct (contributing analyses) |].
    apply Forall_map. eapply Forall_impl; [exact Hall |]. cbn. tauto. }
  set (e := mean (map energy_level (contributing analyses))) in *.
  set (c := mean (map crowd_level (contributing analyses))) in *.
  destruct (classify_cases e c) as (Hlive & Hwarm & Hdead).
  assert (Hinj : forall x y : Z, x <= y -> (inject_Z x <= inject_Z y)%Q)
    by (intros x y Hxy; now rewrite <- Zle_Qle).
  assert (Hinj' : forall x y : Z, x < y -> (inject_Z x < inject_Z y)%Q)
    by (intros x y Hxy; now rewrite <- Zlt_Qlt).
  repeat split.
  - intros Hlo. apply Hlive. apply Hinj in Hlo. change (inject_Z 7) with 7%Q in Hlo.
    split; lra.
  - intros Hhi. apply Hinj' in Hhi. change (inject_Z 5) with 5%Q in Hhi.
    apply Hdead; intros H; lra.
  - intros Hlo Hhi. apply Hinj in Hlo. apply Hinj' in Hhi.
    change (inject_Z 5) with 5%Q in Hlo. change (inject_Z 7) with 7%Q in Hhi.
    apply Hwarm; [intros H; lra | left; lra].
Qed.

Lemma unanimous_scores_witness :
  exists s, _aggregate_vibes live_night = Ok s /\ status s = "LIVE".
Proof.
  eexists. split; [vm_compute; reflexivity |].
  match goal with
  | |- status ?s = _ =>
      destruct (unanimous_scores live_night s 7 8) as (Hlive & _)
  end.
  - discriminate.
  - vm_compute. reflexivity.
  - repeat constructor; cbn; lia.
  - apply Hlive. lia.
Defined.

End SummaryProps.

(** ** Reports *)

Module ReportProps.
Import Py Scout AggregatorProps ReportTerms.

(** *** Exceptions of the pipeline *)

Lemma foldM_count_tag_raises (tags : list json) :
  forall (counts : list (json * nat)) (e : exn),
    foldM count_tag tags counts = Raise e -> exn_cls e = TypeError.
Proof.
  induction tags as [|t tags IH]; intros counts e; cbn [foldM]; [discriminate |].
  rewrite count_tag_unfold. destruct (hashable t); cbn [mbind result_bind].
  - apply IH.
  - now intros [= <-].
Qed.

Lemma foldM_count_tags_raises (l : list VibeAnalysis) :
  forall (counts : list (json * nat)) (e : exn),
    foldM count_tags l counts = Raise e -> exn_cls e = TypeError.
Proof.
  induction l as [|a l IH]; intros counts e; cbn [foldM]; [discriminate |].
  rewrite count_tags_unfold.
  destruct (iter (vibe_tags a)) as [tags|e'] eqn:Hiter; cbn [mbind result_bind].
  - destruct (foldM count_tag tags counts) as [counts1|e'] eqn:H1;
      cbn [mbind result_bind]; [apply IH |].
    intros [= <-]. eapply foldM_count_tag_raises; eassumption.
  - intros [= <-]. destruct (vibe_tags a); cbn in Hiter;
      try discriminate Hiter; now injection Hiter as <-.
Qed.

Lemma aggregate_raises (analyses : list VibeAnalysis) (e : exn) :
  _aggregate_vibes analyses = Raise e -> exn_cls e = TypeError.
Proof.
  unfold _aggregate_vibes.
  destruct (List.filter contributes analyses) as [|a l]; [discriminate |].
  destruct (foldM count_tags (a :: l) []) as [counts|e'] eqn:Hfold;
    cbn [mbind result_bind]; [discriminate |].
  intros [= <-]. eapply foldM_count_tags_raises; eassumption.
Qed.

Lemma join_raises (sep : string) (xs : list json) (e : exn) :
  join sep xs = Raise e -> exn_cls e = TypeError.
Proof.
  induction xs as [|x xs IH]; cbn [join]; [discriminate |].
  destruct x; try (now intros [= <-]).
  destruct xs as [|y ys]; [discriminate |].
  destruct (join sep (y :: ys)) as [rest|e'] eqn:Hrest; cbn [mbind result_bind];
    [discriminate |].
  intros [= <-]. now apply IH.
Qed.

Lemma scout_location_raises (w : world) (max_retries : Z)
    (env : Z -> Scraper.attempt_env) (location_url : string) (max_posts : Z)
    (analyze_images : bool) (e : exn) :
  scout_location w max_retries env location_url max_posts analyze_images = Raise e ->
  exn_cls e = TypeError.
Proof.
  unfold scout_location.
  destruct (Scraper.success _); cbn [negb]; [| discriminate].
  destruct (Scraper.media_items _) as [|item items]; [discriminate |].
  destruct (if analyze_images then _ else _) as [analyses|e'] eqn:Hbatch;
    cbn [mbind result_bind].
  - destruct analyses as [|a rest]; cbn [mbind result_bind]; [discriminate |].
    destruct (_aggregate_vibes (a :: rest)) as [s|e'] eqn:Hs; cbn [mbind result_bind].
    + destruct (join ", " (top_vibe_tags s)) as [joined|e'] eqn:Hjoin;
        cbn [mbind result_bind]; [discriminate |].
      intros [= <-]. eapply join_raises; eassumption.
    + intros [= <-]. eapply aggregate_raises; eassumption.
  - exfalso. destruct analyze_images; [| discriminate Hbatch].
    destruct (thumbnails (item :: items)) as [|u us]; [discriminate Hbatch |].
    destruct (PipelineProps.analyze_batch_total w (u :: us)) as (l & Hl & _).
    congruence.
Qed.

(** X25.  The pipeline raises nothing but a [TypeError], and only when the
    scrape found posts and the analysis is on: the tags of a reply could
    not be counted, or a top tag that is not a string could not be joined
    for the printed report. *)
Theorem only_type_errors_escape (w : world) (max_retries : Z)
    (env : Z -> Scraper.attempt_env) (location_url : string) (max_posts : Z)
    (analyze_images : bool) (e : exn) :
  scout_location w max_retries env location_url max_posts analyze_images = Raise e ->
  exn_cls e = TypeError /\ analyze_images = true /\
  thumbnails (Scraper.media_items
                (fst (Scraper.scrape_location max_retries env location_url max_posts)))
    <> [].
Proof.
  unfold scout_location.
  set (r := fst (Scraper.scrape_location max_retries env location_url max_posts)).
  destruct (Scraper.success r); cbn [negb]; [| discriminate].
  destruct (Scraper.media_items r) as [|item items] eqn:Hitems; [discriminate |].
  destruct analyze_images; cbn [mbind result_bind]; [| discriminate].
  destruct (thumbnails (item :: items)) as [|u us] eqn:Hthumbs;
    cbn [mbind result_bind]; [discriminate |].
  destruct (PipelineProps.analyze_batch_total w (u :: us)) as (analyses & -> & Hall).
  cbn [mbind result_bind].
  destruct analyses as [|a rest]; [inversion Hall |].
  destruct (_aggregate_vibes (a :: rest)) as [s|e'] eqn:Hs; cbn [mbind result_bind].
  - destruct (join ", " (top_vibe_tags s)) as [joined|e'] eqn:Hjoin;
      cbn [mbind result_bind]; [discriminate |].
    intros [= <-]. repeat split; [| discriminate].
    eapply join_raises; eassumption.
  - intros [= <-]. repeat split; [| discriminate].
    eapply aggregate_raises; eassumption.
Qed.

Lemma only_type_errors_escape_witness :
  exists e,
    scout_location numeric_tags_world 3 (Scraper.loads Scraper.grid)
      Scraper.club_url 2 true = Raise e /\
    exn_cls e = TypeError.
Proof.
  eexists. split; [vm_compute; reflexivity |].
  match goal with
  | |- exn_cls ?e = _ =>
      apply (only_type_errors_escape numeric_tags_world 3
               (Scraper.loads Scraper.grid) Scraper.club_url 2 true e)
  end.
  vm_compute. reflexivity.
Defined.

(** *** What the pipeline returns *)

(** X26.  The report follows the scrape: a failed scrape gives the failure
    report with its error; a scrape without items gives the no-posts
    report; otherwise the report lists the scraped items, counts them,
    holds one analysis per thumbnail when the analysis is on and none
    when it is off, and has a summary exactly when it has analyses. *)
Theorem pipeline_outcomes (w : world) (max_retries : Z)
    (env : Z -> Scraper.attempt_env) (location_url : string) (max_posts : Z)
    (analyze_images : bool) :
  exists r st,
    Scraper.scrape_location max_retries env location_url max_posts = (r, st) /\
    match scout_location w max_retries env location_url max_posts analyze_images with
    | Ok (ScrapeFailed err u) =>
        Scraper.success r = false /\ u = location_url /\
        err = Scraper.error r /\ is_Some err
    | Ok (NoPosts u name _) =>
        Scraper.success r = true /\ Scraper.media_items r = [] /\
        u = location_url /\ name = Scraper.location_name r
    | Ok (Report u name count posts analyses vibe_summary) =>
        Scraper.success r = true /\ u = location_url /\
        name = Scraper.location_name r /\
        posts = Scraper.media_items r /\ posts <> [] /\ count = length posts /\
        (0 <= max_posts ->
           Z.of_nat count <= max_posts /\ NoDup (map Scraper.shortcode posts)) /\
        map image_url analyses = (if analyze_images then thumbnails posts else []) /\
        (vibe_summary = None <-> analyses = [])
    | Raise _ =>
        Scraper.success r = true /\ Scraper.media_items r <> [] /\
        analyze_images = true
    end.
Proof.
  pose proof (ScraperProps.scrape_items_distinct max_retries env location_url
                max_posts) as Hdistinct.
  pose proof (RetryProps.attempts_result max_retries env location_url max_posts
                (Z.to_nat max_retries) 0 Scraper.initial) as Hshape.
  unfold scout_location. unfold Scraper.scrape_location in *.
  destruct (Scraper.attempts max_retries env location_url max_posts
              (Z.to_nat max_retries) 0 Scraper.initial) as [r st].
  cbn [fst] in *. exists r, st. split; [reflexivity |].
  destruct (Scraper.success r) eqn:Hok; cbn [negb].
  2:{ repeat split. destruct Hshape as [(msg & ->) | (i & n & its & _ & _ & ->)];
        [cbn; eauto | discriminate Hok]. }
  destruct (Scraper.media_items r) as [|item items] eqn:Hitems; [repeat split |].
  assert (Hthumbs : forall analyses,
            (if analyze_images
             then match thumbnails (item :: items) with
                  | [] => Ok []
                  | _ => analyze_batch w (thumbnails (item :: items))
                  end
             else Ok []) = Ok analyses ->
            map image_url analyses =
            if analyze_images then thumbnails (item :: items) else []).
  { intros analyses. destruct analyze_images; [| now intros [= <-]].
    destruct (ReplyProps.batch_keeps_urls w (thumbnails (item :: items)))
      as (l & Hl & Hurls).
    destruct (thumbnails (item :: items)); [now intros [= <-] |].
    rewrite Hl. now intros [= <-]. }
  destruct (if analyze_images
            then match thumbnails (item :: items) with
                 | [] => Ok []
                 | _ => analyze_batch w (thumbnails (item :: items))
                 end
            else Ok []) as [analyses|e] eqn:Hbatch; cbn [mbind result_bind].
  2:{ destruct analyze_images; [| discriminate Hbatch]. repeat split. discriminate. }
  specialize (Hthumbs analyses eq_refl).
  assert (Hon : analyses <> [] -> analyze_images = true).
  { destruct analyze_images; [reflexivity |]. destruct analyses; [congruence |].
    discriminate Hthumbs. }
  destruct analyses as [|a rest]; cbn [mbind result_bind].
  - repeat split; try discriminate; try assumption;
      try (now apply Hdistinct).
  - destruct (_aggregate_vibes (a :: rest)) as [s|e]; cbn [mbind result_bind].
    + destruct (join ", " (top_vibe_tags s)); cbn [mbind result_bind].
      * repeat split; try discriminate; try assumption;
          try (now apply Hdistinct).
      * repeat split; [discriminate | now apply Hon].
    + repeat split; [discriminate | now apply Hon].
Qed.

End ReportProps.

(** ** The command line *)

Module CliProps.
Import Py Scout Cli.

Lemma foldM_app {A B : Type} (body : B -> A -> result B) (xs ys : list A) (acc : B) :
  foldM body (xs ++ ys) acc = foldM body xs acc ≫= foldM body ys.
Proof.
  revert acc. induction xs as [|x xs IH]; intros acc; cbn [foldM app];
    [reflexivity |].
  destruct (body acc x) as [acc'|e]; cbn [mbind result_bind]; [apply IH | reflexivity].
Qed.

Lemma field1_max_posts (v : string) :
  field1 ("--max-posts=" ++ v) = Ok (before "=" v).
Proof. destruct v; reflexivity. Qed.

Lemma field1_output (v : string) :
  field1 ("--output=" ++ v) = Ok (before "=" v).
Proof. destruct v; reflexivity. Qed.

Lemma parse_option_max_posts (P : str_parsers) (o : options) (value : string) :
  parse_option P o ("--max-posts=" ++ value) =
  int P (JStr (before "=" value)) ≫= fun n =>
    Ok {| max_posts := n; analyze := analyze o; output_file := output_file o |}.
Proof.
  unfold parse_option.
  now rewrite (ShortcodeProps.startswith_app "--max-posts=" value), field1_max_posts.
Qed.

Lemma parse_options_snoc (P : str_parsers) (args : list string) (arg : string) :
  parse_options P (args ++ [arg]) =
  parse_options P args ≫= fun o => parse_option P o arg.
Proof.
  unfold parse_options. rewrite foldM_app.
  destruct (foldM (parse_option P) args _) as [o|e]; cbn [mbind result_bind foldM];
    [| reflexivity].
  now destruct (parse_option P o arg).
Qed.

(** *** Options *)

(** X27.  The options are read from left to right, a later one replacing an
    earlier one.  A value is cut at its first "=": "--output=a=b" names
    the file "a".  Arguments that are none of the three options are
    skipped. *)
Theorem options_are_read_in_order (P : str_parsers) (args : list string) (o : options) :
  parse_options P args = Ok o ->
  (forall name,
     parse_options P (args ++ ["--output=" ++ name]) =
     Ok {| max_posts := max_posts o; analyze := analyze o;
           output_file := Some (before "=" name) |}) /\
  parse_options P (args ++ ["--no-analyze"]) =
    Ok {| max_posts := max_posts o; analyze := false;
          output_file := output_file o |} /\
  (forall value n, int_of_str P (before "=" value) = Some n ->
     parse_options P (args ++ ["--max-posts=" ++ value]) =
     Ok {| max_posts := n; analyze := analyze o; output_file := output_file o |}) /\
  (forall arg,
     startswith "--max-posts=" arg = false -> arg <> "--no-analyze" ->
     startswith "--output=" arg = false ->
     parse_options P (args ++ [arg]) = Ok o).
Proof.
  intros Ho. repeat split.
  - intros name. rewrite parse_options_snoc, Ho. cbn [mbind result_bind].
    unfold parse_option.
    change (startswith "--max-posts=" ("--output=" ++ name)) with false.
    change (String.eqb ("--output=" ++ name) "--no-analyze") with false.
    rewrite (ShortcodeProps.startswith_app "--output=" name), field1_output.
    reflexivity.
  - rewrite parse_options_snoc, Ho. reflexivity.
  - intros value n Hn. rewrite parse_options_snoc, Ho. cbn [mbind result_bind].
    rewrite parse_option_max_posts.
    cbn [mbind result_bind int]. now rewrite Hn.
  - intros arg Hmax Hno Hout. rewrite parse_options_snoc, Ho.
    cbn [mbind result_bind]. unfold parse_option. rewrite Hmax, Hout.
    now destruct (String.eqb_spec arg "--no-analyze").
Qed.

Lemma options_are_read_in_order_witness :
  parse_options no_parsers (["--output=a.json"] ++ ["--output=" ++ "b=c.json"]) =
  Ok {| max_posts := 10; analyze := true; output_file := Some "b" |}.
Proof.
  destruct (options_are_read_in_order no_parsers ["--output=a.json"]
              {| max_posts := 10; analyze := true; output_file := Some "a.json" |}
              eq_refl) as [Hout _].
  apply (Hout "b=c.json").
Defined.

(** X28.  An option "--max-posts=" whose value is no integer raises a
    [ValueError] that leaves [main]: the options are read before the
    [try], so neither handler reports it, whatever the environment. *)
Theorem bad_max_posts_is_uncaught (sys : system) (w : world)
    (env : Z -> Scraper.attempt_env) (program location_url value : string)
    (earlier later : list string) (o : options) :
  parse_options (parsers w) earlier = Ok o ->
  int_of_str (parsers w) (before "=" value) = None ->
  exists e,
    main sys w env
      (program :: location_url :: earlier ++ ("--max-posts=" ++ value) :: later) =
    Uncaught e /\ exn_cls e = ValueError.
Proof.
  intros Ho Hvalue. cbn [main]. unfold parse_options in *.
  rewrite foldM_app, Ho. cbn [mbind result_bind foldM].
  rewrite parse_option_max_posts.
  cbn [mbind result_bind int]. rewrite Hvalue. cbn [mbind result_bind].
  eexists. split; reflexivity.
Qed.

Lemma bad_max_posts_is_uncaught_witness :
  exists e,
    main bare_system terse (Scraper.loads Scraper.grid)
      ["scout.py"; Scraper.club_url; "--no-analyze"; "--max-posts=" ++ "five"] =
    Uncaught e /\ exn_cls e = ValueError.
Proof.
  apply (bad_max_posts_is_uncaught bare_system terse (Scraper.loads Scraper.grid)
           "scout.py" Scraper.club_url "five" ["--no-analyze"] []
           {| max_posts := 10; analyze := false; output_file := None |});
    reflexivity.
Defined.

(** *** The API key *)

(** X29.  Without an API key in the environment (unset or empty) the run ends
    in "Configuration Error" before anything is scraped, also when the
    analysis is switched off with "--no-analyze": the engine builds the
    analyzer in every case. *)
Theorem api_key_is_required (sys : system) (w : world)
    (env : Z -> Scraper.attempt_env) (program location_url : string)
    (args : list string) (o : options) (retries : Z) :
  parse_options (parsers w) args = Ok o ->
  new_scraper (parsers w) sys = Ok retries ->
  getenv sys "ANTHROPIC_API_KEY" = None \/ getenv sys "ANTHROPIC_API_KEY" = Some "" ->
  exists msg,
    main sys w env (program :: location_url :: args) = ConfigurationError msg /\
    startswith "ANTHROPIC_API_KEY not found" msg = true.
Proof.
  intros Ho Hscraper Hkey. cbn [main]. rewrite Ho.
  unfold run, new_engine. rewrite Hscraper. cbn [mbind result_bind].
  unfold new_analyzer. destruct Hkey as [-> | ->]; cbn [mbind result_bind];
    eexists; split; reflexivity.
Qed.

Lemma api_key_is_required_witness :
  exists msg,
    main bare_system terse (Scraper.loads Scraper.grid)
      ["scout.py"; Scraper.club_url; "--no-analyze"] = ConfigurationError msg /\
    startswith "ANTHROPIC_API_KEY not found" msg = true.
Proof.
  apply (api_key_is_required bare_system terse (Scraper.loads Scraper.grid)
           "scout.py" Scraper.club_url ["--no-analyze"]
           {| max_posts := 10; analyze := false; output_file := None |} 3);
    [reflexivity | reflexivity | left; reflexivity].
Defined.

(** *** Errors of the pipeline *)

(** X30.  When the engine is built and the pipeline raises, the run ends with
    "Error: " and the message, not with "Configuration Error": what the
    pipeline raises is a [TypeError]. *)
Theorem pipeline_error_ends_the_run (sys : system) (w : world)
    (env : Z -> Scraper.attempt_env) (program location_url : string)
    (args : list string) (o : options) (retries : Z) (e : exn) :
  parse_options (parsers w) args = Ok o ->
  new_engine (parsers w) sys None = Ok retries ->
  scout_location w retries env location_url (max_posts o) (analyze o) = Raise e ->
  main sys w env (program :: location_url :: args) = OtherFailure (exn_msg e).
Proof.
  intros Ho Hengine Hraise. cbn [main]. rewrite Ho.
  unfold run. rewrite Hengine. cbn [mbind result_bind].
  rewrite Hraise. cbn [mbind result_bind].
  apply ReportProps.scout_location_raises in Hraise.
  unfold catches. rewrite Hraise. reflexivity.
Qed.

Lemma pipeline_error_ends_the_run_witness :
  exists msg,
    main keyed_system ReportTerms.numeric_tags_world (Scraper.loads Scraper.grid)
      ["scout.py"; Scraper.club_url; "--output=report.json"] = OtherFailure msg.
Proof.
  eexists.
  apply (pipeline_error_ends_the_run keyed_system ReportTerms.numeric_tags_world
           (Scraper.loads Scraper.grid) "scout.py" Scraper.club_url
           ["--output=report.json"]
           {| max_posts := 10; analyze := true; output_file := Some "report.json" |} 3).
  - reflexivity.
  - reflexivity.
  - vm_compute. reflexivity.
Defined.

End CliProps.
